(** * A shallow embedding of the generic CRUD service of FastAPI-Catapult,
    specialised to the cat resource ([CatService]), and of its routes.

    The store is SQLite, reached through Python's [sqlite3] driver: table
    [cats] is a rowid table whose [INTEGER PRIMARY KEY] [id] is the rowid,
    so its ids are 64-bit integers, distinct, and a scan returns the rows in
    ascending id order.  The session is modelled by the rows it sees after a
    flush, in that order; every mutating method of [BaseServiceCrud]
    flushes, so reads that follow it observe its effect.  A failing
    statement is an exception of [Exc].

    Two things lie outside the code of the repository and stay parameters of
    the development (Section [Store]): the attributes [Cat] inherits from
    SQLAlchemy's [DeclarativeBase], from [object] and from its metaclass,
    and the number SQLite's floating-point parser makes of a real literal. *)

From Stdlib Require Import List ZArith String Ascii Bool Lia DecimalString.
Import ListNotations.
Open Scope Z_scope.


(** ** Data model *)

(** A Python value as it reaches the service in a keyword argument or in a
    schema field: an [int], a [str] or [None]. *)
Inductive pyval : Type :=
| PInt (z : Z)
| PStr (s : string)
| PNone.

(** Python's [==] on such values. *)
Definition pyval_eqb (a b : pyval) : bool :=
  match a, b with
  | PInt x, PInt y => Z.eqb x y
  | PStr x, PStr y => String.eqb x y
  | PNone, PNone => true
  | _, _ => false
  end.

(** [src/app/models/cat.py]: a persisted row of table [cats]; all three
    columns are [NOT NULL] ([id] as the primary key). *)
Record Cat : Type := mkCat {
  id : Z;
  name : string;
  age : Z
}.

(** A [Cat] instance built by the constructor but not yet flushed: a
    column left out of the constructor's keywords is [None]. *)
Record CatDraft : Type := mkCatDraft {
  d_id : option Z;
  d_name : option string;
  d_age : option Z
}.

(** [src/app/schemas/cat.py], [CatSchema]: the full shape. *)
Record CatSchema : Type := mkCatSchema {
  s_id : Z;
  s_name : string;
  s_age : Z
}.

(** The [id] field of [CatCreateSchema]: [id: Optional[int] = None].  The
    schema's [model_fields_set] records whether it was given explicitly
    (possibly as [None]); [name] and [age] are required, so always set. *)
Inductive IdField : Type :=
| IdUnset
| IdSet (v : option Z).

(** [src/app/schemas/cat.py], [CatCreateSchema]. *)
Record CatCreateSchema : Type := mkCatCreateSchema {
  c_id : IdField;
  c_name : string;
  c_age : Z
}.

Definition id_value (f : IdField) : option Z :=
  match f with
  | IdUnset => None
  | IdSet v => v
  end.

(** One item of a [model_dump()] dictionary, i.e. one column assignment. *)
Inductive ColumnAssign : Type :=
| SetId (v : option Z)
| SetName (n : string)
| SetAge (a : Z).

(** [schema.model_dump()]: every field, [id] included. *)
Definition model_dump (s : CatCreateSchema) : list ColumnAssign :=
  [SetId (id_value (c_id s)); SetName (c_name s); SetAge (c_age s)].

(** [schema.model_dump(exclude_unset=True)]: only the fields in
    [model_fields_set]. *)
Definition model_dump_exclude_unset (s : CatCreateSchema) : list ColumnAssign :=
  match c_id s with
  | IdUnset => []
  | IdSet v => [SetId v]
  end ++ [SetName (c_name s); SetAge (c_age s)].

(** [Cat( **kwargs)]: the declarative constructor sets each keyword. *)
Definition set_draft_attr (d : CatDraft) (a : ColumnAssign) : CatDraft :=
  match a with
  | SetId v => mkCatDraft v (d_name d) (d_age d)
  | SetName n => mkCatDraft (d_id d) (Some n) (d_age d)
  | SetAge g => mkCatDraft (d_id d) (d_name d) (Some g)
  end.

Definition cat_ctor (kw : list ColumnAssign) : CatDraft :=
  fold_left set_draft_attr kw (mkCatDraft None None None).

(** ** The session: a state and error monad *)

Inductive Exc : Type :=
| IntegrityError          (* a [NOT NULL], primary-key or datatype constraint
                             fails ([SQLITE_CONSTRAINT], [SQLITE_MISMATCH]) *)
| OperationalError        (* [SQLITE_FULL]: no free rowid was found *)
| OverflowError           (* [sqlite3] binds a Python [int] outside 64 bits *)
| UnmappedInstanceError   (* [session.delete(None)] *)
| AttributeError          (* [getattr] or the explicit [raise] *)
| TypeError.              (* the truth value of a SQL clause *)

Definition Session : Type := list Cat.

Definition Svc (A : Type) : Type := Session -> Exc + (A * Session).

Definition ret {A} (a : A) : Svc A := fun st => inr (a, st).

Definition raise {A} (e : Exc) : Svc A := fun _ => inl e.

Definition bind {A B} (m : Svc A) (f : A -> Svc B) : Svc B :=
  fun st => match m st with
            | inl e => inl e
            | inr (a, st') => f a st'
            end.

Notation "x <- m ;; k" := (bind m (fun x => k))
  (at level 61, m at next level, right associativity).
Notation "m ;;; k" := (bind m (fun _ => k))
  (at level 61, right associativity).

(** A pure computation that may raise, run inside the session. *)
Definition lift {A} (r : Exc + A) : Svc A :=
  match r with
  | inl e => raise e
  | inr a => ret a
  end.

(** ** SQLite's integers and texts *)

Definition int64_min : Z := - 2 ^ 63.
Definition int64_max : Z := 2 ^ 63 - 1.

(** The Python [int]s [sqlite3] can bind as an SQLite [INTEGER]; binding
    any other raises [OverflowError]. *)
Definition in_int64 (z : Z) : bool := (int64_min <=? z) && (z <=? int64_max).

Definition opt_in_int64 (o : option Z) : bool :=
  match o with
  | Some z => in_int64 z
  | None => true
  end.

(** [sqlite3Isspace]: space, [\t], [\n], [\v], [\f], [\r]. *)
Definition is_sqlite_space (c : ascii) : bool :=
  let n := nat_of_ascii c in
  (n =? 32)%nat || ((9 <=? n)%nat && (n <=? 13)%nat).

Fixpoint skip_spaces (s : string) : string :=
  match s with
  | String c rest => if is_sqlite_space c then skip_spaces rest else s
  | EmptyString => s
  end.

Fixpoint all_spaces (s : string) : bool :=
  match s with
  | String c rest => is_sqlite_space c && all_spaces rest
  | EmptyString => true
  end.

Definition digit_value (c : ascii) : option Z :=
  let n := nat_of_ascii c in
  if (48 <=? n)%nat && (n <=? 57)%nat then Some (Z.of_nat n - 48) else None.

(** The digits after the first one, then only spaces. *)
Fixpoint digits_then_spaces (acc : Z) (s : string) : option Z :=
  match s with
  | EmptyString => Some acc
  | String c rest =>
      match digit_value c with
      | Some d => digits_then_spaces (acc * 10 + d) rest
      | None => if all_spaces s then Some acc else None
      end
  end.

Definition unsigned_literal (s : string) : option Z :=
  match s with
  | String c rest =>
      match digit_value c with
      | Some d => digits_then_spaces d rest
      | None => None
      end
  | EmptyString => None
  end.

(** A text that SQLite reads as an integer literal ([sqlite3Atoi64]):
    spaces, an optional sign, at least one digit, spaces. *)
Definition integer_literal (s : string) : option Z :=
  match skip_spaces s with
  | String c rest =>
      if Ascii.eqb c "-" then option_map Z.opp (unsigned_literal rest)
      else if Ascii.eqb c "+" then unsigned_literal rest
      else unsigned_literal (String c rest)
  | EmptyString => None
  end.

(** The text SQLite makes of an integer ([%lld]). *)
Definition int_to_text (z : Z) : string := NilZero.string_of_int (Z.to_int z).

(** ** Queries *)

(** The mapped columns of [Cat]. *)
Inductive Column : Type := ColId | ColName | ColAge.

(** A [WHERE] criterion: [column = :value], or a constant that SQLAlchemy
    coerces from a Python [bool] ([filter(True)] and [filter(False)]). *)
Inductive Criterion : Type :=
| ColEq (c : Column) (v : pyval)
| ConstCrit (b : bool).

Definition Query : Type := list Criterion.

(** The parameters a query binds: its [int] values must fit in 64 bits
    ([None] is rendered [IS NULL], a constant binds nothing). *)
Definition param_in_int64 (v : pyval) : bool :=
  match v with
  | PInt z => in_int64 z
  | _ => true
  end.

Definition crit_in_int64 (k : Criterion) : bool :=
  match k with
  | ColEq _ v => param_in_int64 v
  | ConstCrit _ => true
  end.

Definition query_in_int64 (q : Query) : bool := forallb crit_in_int64 q.

(** [.first()] *)
Definition first {A} (l : list A) : option A :=
  match l with
  | [] => None
  | x :: _ => Some x
  end.

(** ** Writes *)

Definition id_taken (st : Session) (i : Z) : bool :=
  existsb (fun r => Z.eqb (id r) i) st.

(** The primary key's uniqueness. *)
Fixpoint ids_unique (st : Session) : bool :=
  match st with
  | [] => true
  | r :: rest => negb (id_taken rest (id r)) && ids_unique rest
  end.

(** A row written into the table takes its place in rowid order. *)
Fixpoint insert_by_id (r : Cat) (st : Session) : Session :=
  match st with
  | [] => [r]
  | c :: rest => if id r <? id c then r :: st else c :: insert_by_id r rest
  end.

(** The largest rowid of the table, if it has rows. *)
Definition max_rowid (st : Session) : option Z :=
  match st with
  | [] => None
  | r :: rest => Some (fold_left Z.max (map id rest) (id r))
  end.

(** The first free candidate [k, k+1, ...] that is at most [2^62], within
    [fuel] candidates. *)
Fixpoint find_free (st : Session) (k : Z) (fuel : nat) : option Z :=
  match fuel with
  | O => None
  | S f =>
      if k <=? 2 ^ 62 then
        if id_taken st k then find_free st (k + 1) f else Some k
      else None
  end.

(** The rowid SQLite gives a row inserted without one ([OP_NewRowid]): [1]
    in an empty table, else one more than the largest rowid while that is
    still a 64-bit integer.  Past [2^63 - 1] SQLite probes random candidates
    in [1 .. 2^62] for a free one ([SQLITE_FULL] if it finds none); which
    free one it takes is not modelled: here it is the smallest, among as
    many candidates as the table has rows plus one.  What follows uses only
    that it is free and in range. *)
Definition next_rowid (st : Session) : option Z :=
  match max_rowid st with
  | None => Some 1
  | Some m =>
      if in_int64 (m + 1) then Some (m + 1)
      else find_free st 1 (S (List.length st))
  end.

Definition draft_in_int64 (d : CatDraft) : bool :=
  opt_in_int64 (d_id d) && opt_in_int64 (d_age d).

(** [db.add(item); db.flush()]: the [INSERT], with the row as the store
    completed it (the instance's [id] is filled in by the flush).  The
    bound parameters are checked first; an [id] of [None] is left out of
    the statement, so that SQLite assigns the rowid. *)
Definition session_add (d : CatDraft) : Svc Cat :=
  fun st =>
    if draft_in_int64 d then
      match d_name d, d_age d with
      | Some n, Some a =>
          match d_id d with
          | None =>
              match next_rowid st with
              | Some i => let r := mkCat i n a in inr (r, insert_by_id r st)
              | None => inl OperationalError
              end
          | Some i =>
              if id_taken st i then inl IntegrityError
              else let r := mkCat i n a in inr (r, insert_by_id r st)
          end
      | _, _ => inl IntegrityError
      end
    else inl OverflowError.

(** The changes are written when staged, then [flush] has nothing left to
    do: every method flushes before it reads or returns, so this is the
    state the session observes. *)
Definition db_flush : Svc unit := ret tt.

(** One [SET column = value] of an [UPDATE]; [id = NULL] on the rowid is
    a datatype mismatch. *)
Definition apply_assign (a : ColumnAssign) (r : Cat) : option Cat :=
  match a with
  | SetId None => None
  | SetId (Some i) => Some (mkCat i (name r) (age r))
  | SetName n => Some (mkCat (id r) n (age r))
  | SetAge g => Some (mkCat (id r) (name r) g)
  end.

Fixpoint apply_values (vals : list ColumnAssign) (r : Cat) : option Cat :=
  match vals with
  | [] => Some r
  | a :: rest =>
      match apply_assign a r with
      | Some r' => apply_values rest r'
      | None => None
      end
  end.

Definition assign_in_int64 (a : ColumnAssign) : bool :=
  match a with
  | SetId v => opt_in_int64 v
  | SetName _ => true
  | SetAge g => in_int64 g
  end.

Fixpoint map_option {A B} (f : A -> option B) (l : list A) : option (list B) :=
  match l with
  | [] => Some []
  | x :: rest =>
      match f x, map_option f rest with
      | Some y, Some ys => Some (y :: ys)
      | _, _ => None
      end
  end.

(** [db.delete(entity); db.flush()]: [DELETE ... WHERE id = entity.id];
    SQLAlchemy refuses [None] as an unmapped instance. *)
Definition session_delete (e : option Cat) : Svc unit :=
  match e with
  | None => raise UnmappedInstanceError
  | Some c => fun st => inr (tt, filter (fun r => negb (Z.eqb (id r) (id c))) st)
  end.

(** ** [BaseServiceCrud] for [CatService]: the writes *)

(** [from_model]: [None] for an absent instance, otherwise
    [CatSchema.model_validate(m.__dict__)]. *)
Definition from_model (m : option Cat) : option CatSchema :=
  match m with
  | None => None
  | Some r => Some (mkCatSchema (id r) (name r) (age r))
  end.

Definition from_models (models_in : list Cat) : list (option CatSchema) :=
  map (fun m => from_model (Some m)) models_in.

(** [CatService._get_id() == id_in], i.e. [Cat.id == id_in]. *)
Definition id_criterion (id_in : Z) : Criterion := ColEq ColId (PInt id_in).

(** The default [_on_creation] hook does nothing. *)
Definition _on_creation (m : CatDraft) : Svc unit := ret tt.

Definition create (schema : CatCreateSchema) : Svc (option CatSchema) :=
  let db_item := cat_ctor (model_dump schema) in
  _on_creation db_item ;;;
  row <- session_add db_item ;;
  db_flush ;;;
  ret (from_model (Some row)).

(** ** Class attributes *)

(** The truth value of an attribute: [not attr] is [False], [True], or
    raises [TypeError] (SQL clauses such as a [Table] refuse it). *)
Inductive Truth : Type := Truthy | Falsy | TruthRaises.

(** What [getattr(Cat, key)] yields: a mapped column (an
    [InstrumentedAttribute], truthy, whose [==] builds a SQL criterion), or
    another object, with its truth value and what its [==] answers on a
    value. *)
Inductive ClassAttr : Type :=
| ColAttr (c : Column)
| OtherAttr (truth : Truth) (eqv : pyval -> bool).

(** ** Routes ([src/app/main.py]) *)

(** What a route raises: its own [HTTPException], or a service exception it
    does not handle. *)
Inductive RouteErr : Type :=
| HTTPException (status_code : Z)
| Unhandled (e : Exc).

Definition Route (A : Type) : Type := Session -> RouteErr + (A * Session).

(** A service call made by a route: its exceptions propagate unhandled. *)
Definition service {A} (m : Svc A) : Route A :=
  fun st => match m st with
            | inl e => inl (Unhandled e)
            | inr p => inr p
            end.

Definition create_cat (cat : CatCreateSchema) : Route (option CatSchema) :=
  service (create cat).

(** CPython's [PySlice_AdjustIndices] for a step of 1. *)
Definition adjust_index (len x : Z) : Z :=
  if x <? 0 then Z.max 0 (x + len) else Z.min x len.

(** [l[start:stop]] *)
Definition py_slice {A} (l : list A) (start stop : Z) : list A :=
  let n := Z.of_nat (List.length l) in
  let i := adjust_index n start in
  let j := adjust_index n stop in
  firstn (Z.to_nat (j - i)) (skipn (Z.to_nat i) l).

(** ** Property-side definitions *)

(** The row of a given id, read in table order. *)
Definition find_row (st : Session) (i : Z) : option Cat :=
  first (filter (fun r => Z.eqb (id r) i) st).

(** Every integer of a create schema fits in 64 bits. *)
Definition schema_in_int64 (s : CatCreateSchema) : bool :=
  opt_in_int64 (id_value (c_id s)) && in_int64 (c_age s).

(** The row [update] should write, read from the spec: the fields set on
    the schema replace the row's, an unset [id] keeps the row's own. *)
Definition spec_row (s : CatCreateSchema) (r : Cat) : Cat :=
  mkCat (match c_id s with IdSet (Some i) => i | _ => id r end) (c_name s) (c_age s).

(** C2 as the spec words it: the row with the id gets the set fields. *)
Definition spec_update_row (id_in : Z) (s : CatCreateSchema) (r : Cat) : Cat :=
  if Z.eqb (id r) id_in then spec_row s r else r.

(** The state a service call leaves, its return value dropped. *)
Definition store_effect {A} (r : Exc + (A * Session)) : Exc + Session :=
  match r with
  | inl e => inl e
  | inr (_, st) => inr st
  end.

(** The fields of the entity, read from the spec, and what "field X of the
    entity equals V" means for them in Python. *)
Definition entity_fields : list string := ["id"; "name"; "age"]%string.

Definition entity_field (r : Cat) (key : string) : option pyval :=
  if String.eqb key "id" then Some (PInt (id r))
  else if String.eqb key "name" then Some (PStr (name r))
  else if String.eqb key "age" then Some (PInt (age r))
  else None.

Definition field_matches (r : Cat) (kv : string * pyval) : bool :=
  match entity_field r (fst kv) with
  | Some w => pyval_eqb w (snd kv)
  | None => false
  end.

(** A filter pair whose value has its field's Python type: an [int] of 64
    bits for [id] and [age], a [str] for [name], or [None]. *)
Definition filter_value_typed (kv : string * pyval) : bool :=
  match snd kv with
  | PInt z => (String.eqb (fst kv) "id" || String.eqb (fst kv) "age") && in_int64 z
  | PStr _ => String.eqb (fst kv) "name"
  | PNone => existsb (String.eqb (fst kv)) entity_fields
  end.

(** An instance of the two parameters of Section [Store], for the evaluated
    examples: no text reads as a real number, and [Cat] inherits nothing. *)
Definition no_real_integer : string -> option Z := fun _ => None.

Definition no_inherited_attr : string -> option ClassAttr := fun _ => None.

Definition tom : CatCreateSchema := mkCatCreateSchema IdUnset "Tom" 3.

Section Store.

(** For a text that is not an integer literal of 64 bits, compared with an
    integer column: [Some z] when SQLite's [NUMERIC] affinity makes of it a
    number equal to the integer [z] (a real literal such as ["1.0"] or
    ["1e3"] whose double is integral, read by SQLite's own floating-point
    parser, which is not modelled), [None] otherwise (the text stays a text,
    which equals no integer). *)
Variable sqlite_real_integer : string -> option Z.

(** [getattr(Cat, key)] for a name that neither [Cat] nor [BaseModel]
    declares in [src/app/models]: what [Cat] inherits from [DeclarativeBase]
    and [object] ([metadata], [registry], [__table__], [__init__], ...) or
    finds on its metaclass ([mro], ...), and [BaseModel]'s [__abstract__];
    [None] for a name that is no attribute ([getattr] raises
    [AttributeError]). *)
Variable inherited_attr : string -> option ClassAttr.

(** ** Reads *)

(** The integer a text becomes under [NUMERIC] affinity, if it becomes
    one. *)
Definition text_numeric_integer (s : string) : option Z :=
  match integer_literal s with
  | Some z => if in_int64 z then Some z else sqlite_real_integer s
  | None => sqlite_real_integer s
  end.

(** [column = :value] on one row.  Against [None] SQLAlchemy renders
    [IS NULL], false on these [NOT NULL] columns.  Otherwise SQLite
    compares after applying the column's affinity to the bound value: for
    the [INTEGER] columns a text becomes a number if it reads as one, for
    the [TEXT] column [name] an integer becomes its decimal text. *)
Definition sql_col_eq (r : Cat) (c : Column) (v : pyval) : bool :=
  match c, v with
  | ColId, PInt z => Z.eqb (id r) z
  | ColAge, PInt z => Z.eqb (age r) z
  | ColName, PStr s => String.eqb (name r) s
  | ColName, PInt z => String.eqb (name r) (int_to_text z)
  | ColId, PStr s =>
      match text_numeric_integer s with Some z => Z.eqb (id r) z | None => false end
  | ColAge, PStr s =>
      match text_numeric_integer s with Some z => Z.eqb (age r) z | None => false end
  | _, PNone => false
  end.

Definition crit_holds (r : Cat) (k : Criterion) : bool :=
  match k with
  | ColEq c v => sql_col_eq r c v
  | ConstCrit b => b
  end.

(** [select(Cat).filter(k1).filter(k2)...]: the conjunction of the
    criteria. *)
Definition query_matches (q : Query) (r : Cat) : bool :=
  forallb (crit_holds r) q.

(** [db.execute(query).scalars().all()], in table order, once the
    parameters are bound. *)
Definition execute_scalars (q : Query) : Svc (list Cat) :=
  fun st =>
    if query_in_int64 q then inr (filter (query_matches q) st, st)
    else inl OverflowError.

(** [db.execute(update(Cat).where(q).values( **vals))], once the parameters
    are bound: every matching row is replaced by its rewritten row, which
    takes its place by id; the table must keep distinct ids. *)
Definition exec_update (q : Query) (vals : list ColumnAssign) : Svc unit :=
  fun st =>
    if query_in_int64 q && forallb assign_in_int64 vals then
      if existsb (query_matches q) st then
        match map_option (apply_values vals) (filter (query_matches q) st) with
        | Some rows =>
            let st' := fold_left (fun acc r => insert_by_id r acc) rows
                         (filter (fun r => negb (query_matches q r)) st) in
            if ids_unique st' then inr (tt, st') else inl IntegrityError
        | None => inl IntegrityError
        end
      else inr (tt, st)
    else inl OverflowError.

(** ** [BaseServiceCrud] for [CatService]: the reads and updates *)

Definition get_by_id (id_in : Z) : Svc (option CatSchema) :=
  rows <- execute_scalars [id_criterion id_in] ;;
  ret (from_model (first rows)).

Definition update (id_in : Z) (schema : CatCreateSchema) : Svc unit :=
  exec_update [id_criterion id_in] (model_dump_exclude_unset schema) ;;;
  db_flush.

Definition crupdate (id_in : Z) (schema : CatCreateSchema) : Svc unit :=
  found <- get_by_id id_in ;;
  match found with
  | Some _ => update id_in schema
  | None => create schema ;;; ret tt
  end.

Definition delete (id_in : Z) : Svc (option CatSchema) :=
  rows <- execute_scalars [id_criterion id_in] ;;
  let entity := first rows in
  session_delete entity ;;;
  db_flush ;;;
  ret (from_model entity).

Definition get_all : Svc (list (option CatSchema)) :=
  rows <- execute_scalars [] ;;
  ret (from_models rows).

(** ** Filters *)

(** [getattr(Cat, key)]: the attributes [src/app/models] declares, its
    three columns and [__tablename__] ([cat.py]) and the [update] method of
    [BaseModel] ([base_model.py]), then the inherited ones. *)
Definition cat_getattr (key : string) : option ClassAttr :=
  if String.eqb key "id" then Some (ColAttr ColId)
  else if String.eqb key "name" then Some (ColAttr ColName)
  else if String.eqb key "age" then Some (ColAttr ColAge)
  else if String.eqb key "__tablename__" then
    Some (OtherAttr Truthy (pyval_eqb (PStr "cats")))
  else if String.eqb key "update" then Some (OtherAttr Truthy (fun _ => false))
  else inherited_attr key.

Definition attr_truth (a : ClassAttr) : Truth :=
  match a with
  | ColAttr _ => Truthy
  | OtherAttr t _ => t
  end.

(** [getattr(Cat, key) == value]: a SQL criterion on a column, a Python
    [bool] otherwise. *)
Definition attr_eq (a : ClassAttr) (value : pyval) : Criterion :=
  match a with
  | ColAttr c => ColEq c value
  | OtherAttr _ eqv => ConstCrit (eqv value)
  end.

(** The loop of [build_filter_query] over [kwargs.items()], from the query
    built so far. *)
Fixpoint build_filter_loop (query : Query) (kwargs : list (string * pyval))
  : Exc + Query :=
  match kwargs with
  | [] => inr query
  | (key, value) :: rest =>
      match cat_getattr key with
      | None => inl AttributeError
      | Some attr =>
          match attr_truth attr with
          | Falsy => inl AttributeError
          | TruthRaises => inl TypeError
          | Truthy => build_filter_loop (query ++ [attr_eq attr value]) rest
          end
      end
  end.

Definition build_filter_query (kwargs : list (string * pyval)) : Exc + Query :=
  build_filter_loop [] kwargs.

Definition execute_and_get_one (query : Query) : Svc (option CatSchema) :=
  rows <- execute_scalars query ;;
  ret (from_model (first rows)).

Definition execute_and_get_all (query : Query) : Svc (list (option CatSchema)) :=
  rows <- execute_scalars query ;;
  ret (from_models rows).

Definition find_all_by_filters (kwargs : list (string * pyval))
  : Svc (list (option CatSchema)) :=
  query <- lift (build_filter_query kwargs) ;;
  execute_and_get_all query.

Definition find_one_by_filters (kwargs : list (string * pyval))
  : Svc (option CatSchema) :=
  query <- lift (build_filter_query kwargs) ;;
  execute_and_get_one query.

(** ** Routes *)

Definition get_all_cats (skip limit : Z) : Svc (list (option CatSchema)) :=
  cats <- get_all ;;
  ret (py_slice cats skip (skip + limit)).

(** [if not cat: raise HTTPException(status_code=404, ...)]; a [CatSchema]
    instance is truthy. *)
Definition get_cat_by_id (cat_id : Z) : Route CatSchema :=
  fun st => match service (get_by_id cat_id) st with
            | inl e => inl e
            | inr (None, _) => inl (HTTPException 404)
            | inr (Some cat, st') => inr (cat, st')
            end.


(** * Lemmas *)

(** ** Integers *)

Lemma in_int64_iff (z : Z) :
  in_int64 z = true <-> - 2 ^ 63 <= z <= 2 ^ 63 - 1.
Proof.
  unfold in_int64, int64_min, int64_max. rewrite andb_true_iff, !Z.leb_le. reflexivity.
Qed.

Lemma schema_dump_in_int64 (s : CatCreateSchema) :
  forallb assign_in_int64 (model_dump_exclude_unset s) = schema_in_int64 s.
Proof.
  destruct s as [[|v] n a]; unfold schema_in_int64; cbn.
  - rewrite andb_true_r. reflexivity.
  - rewrite !andb_true_r. reflexivity.
Qed.

(** ** The rows of an id *)

Lemma id_taken_spec (st : Session) (i : Z) :
  id_taken st i = true <-> exists r, In r st /\ id r = i.
Proof.
  unfold id_taken. rewrite existsb_exists.
  split; intros [r [Hr He]]; exists r; split; auto; apply Z.eqb_eq; auto.
Qed.

Lemma id_taken_cons (c : Cat) (l : Session) (x : Z) :
  id_taken (c :: l) x = Z.eqb (id c) x || id_taken l x.
Proof. reflexivity. Qed.

Lemma id_taken_insert (l : Session) (r : Cat) (x : Z) :
  id_taken (insert_by_id r l) x = Z.eqb (id r) x || id_taken l x.
Proof.
  induction l as [|c l IH]; [reflexivity|]. cbn [insert_by_id].
  destruct (id r <? id c); [reflexivity|].
  rewrite !id_taken_cons, IH.
  destruct (id r =? x), (id c =? x); reflexivity.
Qed.

Lemma ids_unique_insert (l : Session) (r : Cat) :
  ids_unique (insert_by_id r l) = negb (id_taken l (id r)) && ids_unique l.
Proof.
  induction l as [|c l IH]; [reflexivity|]. cbn [insert_by_id].
  destruct (id r <? id c); [reflexivity|].
  cbn [ids_unique]. rewrite IH, id_taken_insert, id_taken_cons.
  rewrite (Z.eqb_sym (id c) (id r)).
  destruct (id r =? id c), (id_taken l (id c)), (id_taken l (id r)), (ids_unique l);
    reflexivity.
Qed.

Lemma id_taken_filter (f : Cat -> bool) (l : Session) (x : Z) :
  id_taken (filter f l) x = true -> id_taken l x = true.
Proof.
  rewrite !id_taken_spec. intros [r [Hr He]]. apply filter_In in Hr as [Hr _].
  exists r; auto.
Qed.

Lemma ids_unique_filter (f : Cat -> bool) (l : Session) :
  ids_unique l = true -> ids_unique (filter f l) = true.
Proof.
  induction l as [|r l IH]; intro Hu; [reflexivity|].
  cbn [ids_unique] in Hu. apply andb_true_iff in Hu as [Hr Hu].
  cbn [filter]. destruct (f r); [|auto].
  cbn [ids_unique]. rewrite IH by exact Hu.
  destruct (id_taken (filter f l) (id r)) eqn:E; [|reflexivity].
  apply id_taken_filter in E. rewrite E in Hr. discriminate.
Qed.

Lemma id_criterion_matches (i : Z) (r : Cat) :
  query_matches [id_criterion i] r = Z.eqb (id r) i.
Proof. cbn. apply andb_true_r. Qed.

Lemma filter_id_nil (st : Session) (i : Z) :
  id_taken st i = false -> filter (fun r => Z.eqb (id r) i) st = [].
Proof.
  induction st as [|r st IH]; [reflexivity|].
  rewrite id_taken_cons. intro H; apply orb_false_iff in H as [H1 H2].
  cbn [filter]. rewrite H1. apply IH, H2.
Qed.

Lemma find_row_cons (c : Cat) (st : Session) (i : Z) :
  find_row (c :: st) i = if Z.eqb (id c) i then Some c else find_row st i.
Proof. unfold find_row. cbn [filter]. destruct (id c =? i); reflexivity. Qed.

Lemma find_row_none (st : Session) (i : Z) :
  find_row st i = None <-> id_taken st i = false.
Proof.
  induction st as [|c st IH]; [split; reflexivity|].
  rewrite find_row_cons, id_taken_cons.
  destruct (id c =? i); [split; discriminate | exact IH].
Qed.

Lemma find_row_some (st : Session) (i : Z) (r : Cat) :
  find_row st i = Some r -> In r st /\ id r = i.
Proof.
  induction st as [|c st IH]; [discriminate|]. rewrite find_row_cons.
  destruct (id c =? i) eqn:E.
  - intro H; injection H as <-. split; [left; reflexivity | apply Z.eqb_eq; exact E].
  - intro H; destruct (IH H); split; [right|]; assumption.
Qed.

Lemma ids_unique_same_id (st : Session) (a b : Cat) :
  ids_unique st = true -> In a st -> In b st -> id a = id b -> a = b.
Proof.
  induction st as [|c st IH]; intros Hu Ha Hb He; [destruct Ha|].
  cbn [ids_unique] in Hu. apply andb_true_iff in Hu as [Hc Hu].
  apply negb_true_iff in Hc.
  destruct Ha as [Ea | Ha], Hb as [Eb | Hb].
  - congruence.
  - exfalso. assert (id_taken st (id c) = true)
      by (apply id_taken_spec; exists b; split; [exact Hb | congruence]).
    congruence.
  - exfalso. assert (id_taken st (id c) = true)
      by (apply id_taken_spec; exists a; split; [exact Ha | congruence]).
    congruence.
  - auto.
Qed.

Lemma find_row_unique (st : Session) (r : Cat) :
  ids_unique st = true -> In r st -> find_row st (id r) = Some r.
Proof.
  intros Hu Hr. destruct (find_row st (id r)) as [c|] eqn:Ef.
  - destruct (find_row_some st (id r) c Ef) as [Hc He].
    rewrite (ids_unique_same_id st c r Hu Hc Hr He). reflexivity.
  - exfalso. apply find_row_none in Ef.
    assert (id_taken st (id r) = true) by (apply id_taken_spec; eauto). congruence.
Qed.

Lemma filter_id_unique (st : Session) (i : Z) (r : Cat) :
  ids_unique st = true -> find_row st i = Some r ->
  filter (fun c => Z.eqb (id c) i) st = [r].
Proof.
  induction st as [|c st IH]; [discriminate|]. intro Hu.
  cbn [ids_unique] in Hu. apply andb_true_iff in Hu as [Hc Hu].
  rewrite find_row_cons. cbn [filter]. destruct (id c =? i) eqn:E.
  - intro H; injection H as <-. apply Z.eqb_eq in E. rewrite filter_id_nil; [reflexivity|].
    rewrite <- E. apply negb_true_iff, Hc.
  - apply IH, Hu.
Qed.

Lemma filter_insert_false (f : Cat -> bool) (r : Cat) (l : Session) :
  f r = false -> filter f (insert_by_id r l) = filter f l.
Proof.
  intro Hf. induction l as [|c l IH]; cbn [insert_by_id].
  - cbn [filter]. rewrite Hf. reflexivity.
  - destruct (id r <? id c).
    + cbn [filter]. rewrite Hf. reflexivity.
    + cbn [filter]. rewrite IH. reflexivity.
Qed.

Lemma filter_insert_only (f : Cat -> bool) (r : Cat) (l : Session) :
  f r = true -> filter f l = [] -> filter f (insert_by_id r l) = [r].
Proof.
  intro Hf. induction l as [|c l IH]; cbn [insert_by_id].
  - intros _. cbn [filter]. rewrite Hf. reflexivity.
  - cbn [filter]. destruct (f c) eqn:Ec; [discriminate|]. intro Hl.
    destruct (id r <? id c); cbn [filter].
    + rewrite Hf, Ec, Hl. reflexivity.
    + rewrite Ec. apply IH, Hl.
Qed.

Lemma filter_filter_impl (f g : Cat -> bool) (l : Session) :
  (forall c, f c = true -> g c = true) -> filter f (filter g l) = filter f l.
Proof.
  intro Himp. induction l as [|c l IH]; [reflexivity|]. cbn [filter].
  destruct (g c) eqn:Eg; cbn [filter]; destruct (f c) eqn:Ef.
  - rewrite IH. reflexivity.
  - exact IH.
  - specialize (Himp c Ef). congruence.
  - exact IH.
Qed.

Lemma filter_neg_id_untaken (st : Session) (i : Z) :
  id_taken (filter (fun r => negb (Z.eqb (id r) i)) st) i = false.
Proof.
  induction st as [|r st IH]; [reflexivity|]. cbn [filter].
  destruct (Z.eqb (id r) i) eqn:E; cbn [negb]; [exact IH|].
  rewrite id_taken_cons, E, IH. reflexivity.
Qed.

Lemma filter_neg_untaken_id (st : Session) (i : Z) :
  id_taken st i = false -> filter (fun r => negb (Z.eqb (id r) i)) st = st.
Proof.
  induction st as [|r st IH]; [reflexivity|].
  rewrite id_taken_cons. intro H; apply orb_false_iff in H as [H1 H2].
  cbn [filter]. rewrite H1. cbn [negb]. f_equal. apply IH, H2.
Qed.

Lemma filter_neg_insert_fresh (l : Session) (r : Cat) :
  id_taken l (id r) = false ->
  filter (fun c => negb (Z.eqb (id c) (id r))) (insert_by_id r l) = l.
Proof.
  intro H. rewrite filter_insert_false by (rewrite Z.eqb_refl; reflexivity).
  apply filter_neg_untaken_id, H.
Qed.

Lemma find_row_insert (l : Session) (r : Cat) (k : Z) :
  id_taken l (id r) = false ->
  find_row (insert_by_id r l) k = if Z.eqb k (id r) then Some r else find_row l k.
Proof.
  intro H. unfold find_row. destruct (Z.eqb_spec k (id r)) as [->|Hne].
  - rewrite filter_insert_only; [reflexivity | apply Z.eqb_refl | apply filter_id_nil, H].
  - rewrite filter_insert_false; [reflexivity|]. apply Z.eqb_neq. congruence.
Qed.

Lemma find_row_filter_neg (st : Session) (i k : Z) :
  find_row (filter (fun c => negb (Z.eqb (id c) i)) st) k =
  if Z.eqb k i then None else find_row st k.
Proof.
  unfold find_row. destruct (Z.eqb_spec k i) as [->|Hne].
  - rewrite filter_id_nil by apply filter_neg_id_untaken. reflexivity.
  - rewrite filter_filter_impl; [reflexivity|].
    intros c Hc. apply Z.eqb_eq in Hc. apply negb_true_iff, Z.eqb_neq. congruence.
Qed.

Lemma find_row_id_taken (st : Session) (i : Z) :
  id_taken st i = true -> exists r, find_row st i = Some r.
Proof.
  intro H. destruct (find_row st i) as [r|] eqn:E; [eauto|].
  apply find_row_none in E. congruence.
Qed.

(** ** Fresh rowids *)

Lemma fold_max_bound (l : list Z) (acc : Z) :
  acc <= fold_left Z.max l acc /\ forall x, In x l -> x <= fold_left Z.max l acc.
Proof.
  revert acc; induction l as [|y l IH]; intro acc; simpl.
  - split; [lia | tauto].
  - destruct (IH (Z.max acc y)) as [H1 H2]. split.
    + lia.
    + intros x [<- | Hx]; [lia | auto].
Qed.

Lemma fold_max_attained (l : list Z) (acc : Z) :
  fold_left Z.max l acc = acc \/ In (fold_left Z.max l acc) l.
Proof.
  revert acc; induction l as [|y l IH]; intro acc; [left; reflexivity|]. cbn [fold_left].
  destruct (IH (Z.max acc y)) as [E | E].
  - rewrite E. destruct (Z.max_spec acc y) as [[_ ->] | [_ ->]];
      [right; left; reflexivity | left; reflexivity].
  - right; right; exact E.
Qed.

(** [max_rowid] is the largest id of the store. *)
Lemma max_rowid_spec (st : Session) (m : Z) :
  max_rowid st = Some m ->
  (exists r, In r st /\ id r = m) /\ forall r, In r st -> id r <= m.
Proof.
  destruct st as [|c rest]; [discriminate|]. cbn [max_rowid].
  intro H; injection H as <-. split.
  - destruct (fold_max_attained (map id rest) (id c)) as [E | E].
    + exists c. split; [left; reflexivity | symmetry; exact E].
    + apply in_map_iff in E as [r [Er Hr]]. exists r. split; [right; exact Hr | exact Er].
  - destruct (fold_max_bound (map id rest) (id c)) as [H1 H2].
    intros r [<- | Hr]; [exact H1 | apply H2, in_map, Hr].
Qed.

Lemma max_rowid_none (st : Session) : max_rowid st = None <-> st = [].
Proof. destruct st; split; first [reflexivity | discriminate]. Qed.

Lemma find_free_spec (st : Session) (fuel : nat) (k i : Z) :
  find_free st k fuel = Some i -> k <= i <= 2 ^ 62 /\ id_taken st i = false.
Proof.
  revert k; induction fuel as [|fuel IH]; intro k; [discriminate|]. cbn [find_free].
  destruct (k <=? 2 ^ 62) eqn:Ek; [|discriminate]. apply Z.leb_le in Ek.
  destruct (id_taken st k) eqn:Et.
  - intro H. destruct (IH (k + 1) H). split; [lia | assumption].
  - intro H; injection H as <-. split; [lia | exact Et].
Qed.

(** The rowid SQLite assigns is free and a 64-bit integer. *)
Lemma next_rowid_spec (st : Session) (i : Z) :
  next_rowid st = Some i -> id_taken st i = false /\ in_int64 i = true.
Proof.
  unfold next_rowid. destruct (max_rowid st) as [m|] eqn:Em.
  - destruct (max_rowid_spec st m Em) as [_ Hle].
    destruct (in_int64 (m + 1)) eqn:Ein.
    + intro H; injection H as <-. split; [|exact Ein].
      destruct (id_taken st (m + 1)) eqn:Et; [|reflexivity].
      apply id_taken_spec in Et as [r [Hr He]]. specialize (Hle r Hr). lia.
    + intro H. destruct (find_free_spec st _ 1 i H) as [Hb Ht].
      split; [exact Ht|]. apply in_int64_iff. lia.
  - apply max_rowid_none in Em as ->. intro H; injection H as <-. split; reflexivity.
Qed.

(** ** The service, call by call *)

Lemma execute_id (i : Z) (st : Session) :
  execute_scalars [id_criterion i] st =
  if in_int64 i then inr (filter (fun r => Z.eqb (id r) i) st, st) else inl OverflowError.
Proof.
  unfold execute_scalars. cbn [query_in_int64 forallb crit_in_int64 id_criterion param_in_int64].
  rewrite andb_true_r. destruct (in_int64 i); [|reflexivity].
  rewrite (filter_ext _ (fun r => Z.eqb (id r) i) (id_criterion_matches i)). reflexivity.
Qed.

Lemma get_by_id_eq (id_in : Z) (st : Session) :
  get_by_id id_in st =
  if in_int64 id_in then inr (from_model (find_row st id_in), st) else inl OverflowError.
Proof.
  unfold get_by_id, bind at 1. rewrite execute_id.
  destruct (in_int64 id_in); reflexivity.
Qed.

Lemma delete_eq (id_in : Z) (st : Session) :
  delete id_in st =
  if in_int64 id_in then
    match find_row st id_in with
    | None => inl UnmappedInstanceError
    | Some c => inr (from_model (Some c), filter (fun r => negb (Z.eqb (id r) id_in)) st)
    end
  else inl OverflowError.
Proof.
  unfold delete, bind at 1. rewrite execute_id.
  destruct (in_int64 id_in); [|reflexivity]. fold (find_row st id_in).
  destruct (find_row st id_in) as [c|] eqn:Ef; [|reflexivity].
  destruct (find_row_some st id_in c Ef) as [_ Hid].
  unfold bind, session_delete, db_flush, ret. rewrite Hid. reflexivity.
Qed.

Lemma cat_ctor_dump (s : CatCreateSchema) :
  cat_ctor (model_dump s) = mkCatDraft (id_value (c_id s)) (Some (c_name s)) (Some (c_age s)).
Proof. reflexivity. Qed.

(** What [create] does: the integers must fit in 64 bits, a given id must
    be free, an absent one is assigned. *)
Lemma create_eq (s : CatCreateSchema) (st : Session) :
  create s st =
  if schema_in_int64 s then
    match id_value (c_id s) with
    | None =>
        match next_rowid st with
        | Some i =>
            let r := mkCat i (c_name s) (c_age s) in
            inr (from_model (Some r), insert_by_id r st)
        | None => inl OperationalError
        end
    | Some i =>
        if id_taken st i then inl IntegrityError
        else let r := mkCat i (c_name s) (c_age s) in
             inr (from_model (Some r), insert_by_id r st)
    end
  else inl OverflowError.
Proof.
  unfold create. cbv zeta. rewrite cat_ctor_dump.
  unfold bind, _on_creation, ret, db_flush, session_add, draft_in_int64.
  cbn [d_id d_name d_age opt_in_int64]. unfold schema_in_int64.
  destruct (opt_in_int64 (id_value (c_id s)) && in_int64 (c_age s)); [|reflexivity].
  destruct (id_value (c_id s)) as [i|].
  - destruct (id_taken st i); reflexivity.
  - destruct (next_rowid st); reflexivity.
Qed.

Lemma existsb_id_criterion (st : Session) (i : Z) :
  existsb (query_matches [id_criterion i]) st = id_taken st i.
Proof.
  induction st as [|r st IH]; [reflexivity|].
  cbn [existsb]. rewrite IH, id_criterion_matches. reflexivity.
Qed.

(** What [update] does, in general: out-of-range integers raise first; no
    row with the id means nothing to do. *)
Lemma update_eq (id_in : Z) (s : CatCreateSchema) (st : Session) :
  update id_in s st =
  if in_int64 id_in && schema_in_int64 s then
    if id_taken st id_in then
      match map_option (apply_values (model_dump_exclude_unset s))
              (filter (fun r => Z.eqb (id r) id_in) st) with
      | Some rows =>
          let st' := fold_left (fun acc r => insert_by_id r acc) rows
                       (filter (fun r => negb (Z.eqb (id r) id_in)) st) in
          if ids_unique st' then inr (tt, st') else inl IntegrityError
      | None => inl IntegrityError
      end
    else inr (tt, st)
  else inl OverflowError.
Proof.
  unfold update, bind at 1, exec_update, db_flush, ret.
  cbn [query_in_int64 forallb crit_in_int64 id_criterion param_in_int64].
  rewrite andb_true_r, schema_dump_in_int64.
  destruct (in_int64 id_in && schema_in_int64 s); [|reflexivity].
  rewrite existsb_id_criterion. destruct (id_taken st id_in); [|reflexivity].
  rewrite (filter_ext (query_matches [id_criterion id_in]) (fun r => Z.eqb (id r) id_in))
    by apply id_criterion_matches.
  rewrite (filter_ext (fun r => negb (query_matches [id_criterion id_in] r))
             (fun r => negb (Z.eqb (id r) id_in)))
    by (intro r; rewrite id_criterion_matches; reflexivity).
  destruct (map_option _ _) as [rows|]; [|reflexivity].
  destruct (ids_unique _); reflexivity.
Qed.

Lemma apply_values_dump (s : CatCreateSchema) (r : Cat) :
  apply_values (model_dump_exclude_unset s) r =
  match c_id s with
  | IdSet None => None
  | _ => Some (spec_row s r)
  end.
Proof. destruct s as [[|[i|]] n a]; reflexivity. Qed.

(** [update] of an existing row on a store with unique ids: the row's
    rewrite replaces it, and must not take an id another row holds. *)
Lemma update_unique_eq (id_in : Z) (s : CatCreateSchema) (st : Session) (r : Cat) :
  ids_unique st = true -> find_row st id_in = Some r ->
  in_int64 id_in && schema_in_int64 s = true ->
  update id_in s st =
  match c_id s with
  | IdSet None => inl IntegrityError
  | _ =>
      let rest := filter (fun c => negb (Z.eqb (id c) id_in)) st in
      if id_taken rest (id (spec_row s r)) then inl IntegrityError
      else inr (tt, insert_by_id (spec_row s r) rest)
  end.
Proof.
  intros Hu Hf Hin. rewrite update_eq, Hin.
  destruct (find_row_some st id_in r Hf) as [Hr Hid].
  assert (Ht : id_taken st id_in = true) by (apply id_taken_spec; eauto).
  rewrite Ht, (filter_id_unique st id_in r Hu Hf). cbn [map_option].
  rewrite apply_values_dump.
  destruct (c_id s) as [|[i|]] eqn:Ec; [| |reflexivity];
    cbn [fold_left]; cbv zeta; rewrite ids_unique_insert,
      (ids_unique_filter _ st Hu), andb_true_r;
    destruct (id_taken (filter (fun c => negb (Z.eqb (id c) id_in)) st) (id (spec_row s r)));
    reflexivity.
Qed.

Lemma crupdate_eq (id_in : Z) (s : CatCreateSchema) (st : Session) :
  crupdate id_in s st =
  if in_int64 id_in then
    match find_row st id_in with
    | Some _ => update id_in s st
    | None => match create s st with
              | inl e => inl e
              | inr (_, st') => inr (tt, st')
              end
    end
  else inl OverflowError.
Proof.
  unfold crupdate, bind at 1. rewrite get_by_id_eq.
  destruct (in_int64 id_in); [|reflexivity].
  destruct (find_row st id_in); cbn [from_model]; [reflexivity|].
  unfold bind at 1, ret. destruct (create s st) as [e|[o st']]; reflexivity.
Qed.

Lemma get_all_eq (st : Session) : get_all st = inr (from_models st, st).
Proof.
  unfold get_all, bind, execute_scalars, ret. cbn [query_in_int64 forallb]. do 3 f_equal.
  induction st as [|r st IH]; [reflexivity|]. cbn [filter]. rewrite IH. reflexivity.
Qed.

(** ** Successful writes *)

Lemma id_taken_filter_neg (st : Session) (i k : Z) :
  id_taken (filter (fun c => negb (Z.eqb (id c) i)) st) k = negb (Z.eqb k i) && id_taken st k.
Proof.
  induction st as [|c st IH]; [destruct (k =? i); reflexivity|]. cbn [filter].
  destruct (Z.eqb_spec (id c) i) as [Ec|Ec]; cbn [negb].
  - rewrite IH, id_taken_cons. destruct (Z.eqb_spec k i); [reflexivity|].
    replace (id c =? k) with false by (symmetry; apply Z.eqb_neq; congruence). reflexivity.
  - rewrite !id_taken_cons, IH. destruct (Z.eqb_spec k i) as [Ek|Ek].
    + subst k. replace (id c =? i) with false by (symmetry; apply Z.eqb_neq; exact Ec). reflexivity.
    + destruct (id c =? k); reflexivity.
Qed.

Lemma schema_id_in_int64 (s : CatCreateSchema) (i : Z) :
  schema_in_int64 s = true -> id_value (c_id s) = Some i -> in_int64 i = true.
Proof.
  unfold schema_in_int64. intros H Hi. rewrite Hi in H. cbn [opt_in_int64] in H.
  apply andb_true_iff in H as [H _]. exact H.
Qed.

(** A successful [create] inserts one row, with a free 64-bit id: the one
    given, or the one the store assigns. *)
Lemma create_success (s : CatCreateSchema) (st : Session) (o : option CatSchema)
    (st' : Session) :
  create s st = inr (o, st') ->
  exists c, o = from_model (Some c) /\ st' = insert_by_id c st /\
            id_taken st (id c) = false /\ in_int64 (id c) = true /\
            name c = c_name s /\ age c = c_age s /\
            match id_value (c_id s) with
            | Some i => id c = i
            | None => next_rowid st = Some (id c)
            end.
Proof.
  rewrite create_eq. cbv zeta. destruct (schema_in_int64 s) eqn:Hs; [|discriminate].
  destruct (id_value (c_id s)) as [i|] eqn:Hi.
  - destruct (id_taken st i) eqn:Ht; [discriminate|]. intro H; injection H as <- <-.
    exists (mkCat i (c_name s) (c_age s)). cbn [id name age].
    repeat split; auto. exact (schema_id_in_int64 s i Hs Hi).
  - destruct (next_rowid st) as [i|] eqn:En; [|discriminate]. intro H; injection H as <- <-.
    destruct (next_rowid_spec st i En) as [Ht Hin].
    exists (mkCat i (c_name s) (c_age s)). cbn [id name age]. repeat split; auto.
Qed.

Lemma get_by_id_after_insert (st : Session) (c : Cat) :
  id_taken st (id c) = false -> in_int64 (id c) = true ->
  get_by_id (id c) (insert_by_id c st) = inr (from_model (Some c), insert_by_id c st).
Proof.
  intros Ht Hin. rewrite get_by_id_eq, Hin, find_row_insert, Z.eqb_refl by exact Ht.
  reflexivity.
Qed.

Lemma spec_row_id (s : CatCreateSchema) (r : Cat) :
  id (spec_row s r) = match c_id s with IdSet (Some i) => i | _ => id r end.
Proof. reflexivity. Qed.

(** A successful [update] on a store with unique ids: nothing to do, or
    the row of the id replaced by its rewrite, whose id is free among the
    other rows. *)
Lemma update_success (id_in : Z) (s : CatCreateSchema) (st : Session) (u : unit)
    (st' : Session) :
  ids_unique st = true -> update id_in s st = inr (u, st') ->
  (id_taken st id_in = false /\ st' = st) \/
  (exists r, find_row st id_in = Some r /\ c_id s <> IdSet None /\
     id_taken (filter (fun c => negb (Z.eqb (id c) id_in)) st) (id (spec_row s r)) = false /\
     st' = insert_by_id (spec_row s r) (filter (fun c => negb (Z.eqb (id c) id_in)) st)).
Proof.
  intros Hu H. destruct (in_int64 id_in && schema_in_int64 s) eqn:Hin;
    [|rewrite update_eq, Hin in H; discriminate].
  destruct (id_taken st id_in) eqn:Ht.
  - right. destruct (find_row_id_taken st id_in Ht) as [r Hf].
    rewrite (update_unique_eq id_in s st r Hu Hf Hin) in H.
    exists r. split; [exact Hf|].
    destruct (c_id s) as [|[j|]] eqn:Ec; [| |discriminate]; cbv zeta in H;
      destruct (id_taken _ (id (spec_row s r))) eqn:E; try discriminate;
      injection H as <-; repeat split; auto; discriminate.
  - left. rewrite update_eq, Hin, Ht in H. injection H as <-. auto.
Qed.

Lemma update_success_unique (id_in : Z) (s : CatCreateSchema) (st : Session) (u : unit)
    (st' : Session) :
  ids_unique st = true -> update id_in s st = inr (u, st') -> ids_unique st' = true.
Proof.
  intros Hu H. destruct (update_success id_in s st u st' Hu H)
    as [[_ ->] | [r [_ [_ [Ht ->]]]]]; [exact Hu|].
  rewrite ids_unique_insert, Ht, ids_unique_filter by exact Hu. reflexivity.
Qed.

Lemma create_success_unique (s : CatCreateSchema) (st : Session) (o : option CatSchema)
    (st' : Session) :
  ids_unique st = true -> create s st = inr (o, st') -> ids_unique st' = true.
Proof.
  intros Hu H. destruct (create_success s st o st' H) as [c [_ [-> [Ht _]]]].
  rewrite ids_unique_insert, Ht, Hu. reflexivity.
Qed.

(** ** Filters *)

Lemma filter_value_typed_field (kv : string * pyval) :
  filter_value_typed kv = true -> In (fst kv) entity_fields.
Proof.
  destruct kv as [k v]. unfold filter_value_typed. cbn [fst snd].
  destruct v as [z|t|]; intro H.
  - apply andb_true_iff in H as [H _]. apply orb_true_iff in H as [H|H];
      apply String.eqb_eq in H as ->; cbn; auto.
  - apply String.eqb_eq in H as ->. cbn; auto.
  - apply existsb_exists in H as [x [Hx Ex]]. apply String.eqb_eq in Ex as ->. exact Hx.
Qed.

Lemma filter_value_typed_int64 (kv : string * pyval) :
  filter_value_typed kv = true -> param_in_int64 (snd kv) = true.
Proof.
  destruct kv as [k [z|t|]]; unfold filter_value_typed; cbn [fst snd param_in_int64];
    intro H; [apply andb_true_iff in H as [_ H]; exact H | reflexivity | reflexivity].
Qed.

Lemma build_filter_loop_fields (q : Query) (kwargs : list (string * pyval)) :
  Forall (fun kv => In (fst kv) entity_fields) kwargs ->
  exists q', build_filter_loop q kwargs = inr (q ++ q') /\
    query_in_int64 q' = forallb (fun kv => param_in_int64 (snd kv)) kwargs /\
    (forallb filter_value_typed kwargs = true ->
       forall r, query_matches q' r = forallb (field_matches r) kwargs).
Proof.
  revert q; induction kwargs as [|[k v] kwargs IH]; intros q Hf.
  - exists []. rewrite app_nil_r. split; [reflexivity|]. split; reflexivity.
  - inversion Hf as [|? ? Hk Hrest]; subst. cbn [fst] in Hk.
    assert (Hstep : exists c, cat_getattr k = Some (ColAttr c) /\
                      (filter_value_typed (k, v) = true ->
                       forall r, sql_col_eq r c v = field_matches r (k, v))).
    { destruct Hk as [<- | [<- | [<- | []]]];
        [exists ColId | exists ColName | exists ColAge];
        (split; [reflexivity|]); intros Ht r; destruct v;
        cbn in Ht |- *; first [discriminate | reflexivity]. }
    destruct Hstep as [c [Hc Hcm]].
    destruct (IH (q ++ [ColEq c v]) Hrest) as [q'' [Hl [Hp Hm]]].
    exists (ColEq c v :: q''). cbn [build_filter_loop]. rewrite Hc.
    cbn [attr_truth attr_eq]. rewrite Hl, <- app_assoc. split; [reflexivity|]. split.
    + cbn [query_in_int64 forallb crit_in_int64 snd]. unfold query_in_int64 in Hp.
      rewrite Hp. reflexivity.
    + cbn [forallb]. intro Ht. apply andb_true_iff in Ht as [Ht1 Ht2].
      intro r. cbn [query_matches forallb crit_holds]. rewrite (Hcm Ht1).
      unfold query_matches in Hm. rewrite (Hm Ht2). reflexivity.
Qed.

Lemma find_all_by_filters_fields (kwargs : list (string * pyval)) (st : Session) :
  Forall (fun kv => In (fst kv) entity_fields) kwargs ->
  exists q, build_filter_query kwargs = inr q /\
    find_all_by_filters kwargs st =
    (if forallb (fun kv => param_in_int64 (snd kv)) kwargs
     then inr (from_models (filter (query_matches q) st), st) else inl OverflowError) /\
    (forallb filter_value_typed kwargs = true ->
       forall r, query_matches q r = forallb (field_matches r) kwargs).
Proof.
  intro Hf. destruct (build_filter_loop_fields [] kwargs Hf) as [q [Hq [Hp Hm]]].
  exists q. unfold build_filter_query. rewrite Hq. cbn [app].
  refine (conj eq_refl (conj _ Hm)).
  unfold find_all_by_filters, build_filter_query. rewrite Hq. cbn [app].
  unfold bind at 1, lift, ret at 1, execute_and_get_all, bind, execute_scalars.
  rewrite Hp. destruct (forallb _ kwargs); reflexivity.
Qed.

Lemma find_all_one_column (k : string) (c : Column) (v : pyval) (st : Session) :
  cat_getattr k = Some (ColAttr c) ->
  find_all_by_filters [(k, v)] st =
  if param_in_int64 v then inr (from_models (filter (fun r => sql_col_eq r c v) st), st)
  else inl OverflowError.
Proof.
  intro Hc. unfold find_all_by_filters, build_filter_query. cbn [build_filter_loop].
  rewrite Hc. cbn [attr_truth attr_eq app build_filter_loop].
  unfold bind at 1, lift, ret at 1, execute_and_get_all, bind, execute_scalars.
  cbn [query_in_int64 forallb crit_in_int64]. rewrite andb_true_r.
  destruct (param_in_int64 v); [|reflexivity].
  rewrite (filter_ext (query_matches [ColEq c v]) (fun r => sql_col_eq r c v))
    by (intro r; cbn; apply andb_true_r).
  reflexivity.
Qed.

Lemma text_numeric_integer_literal (t : string) (z : Z) :
  integer_literal t = Some z -> in_int64 z = true -> text_numeric_integer t = Some z.
Proof. intros H Hz. unfold text_numeric_integer. rewrite H, Hz. reflexivity. Qed.

Lemma build_filter_loop_error (q : Query) (kwargs : list (string * pyval)) (e : Exc) :
  build_filter_loop q kwargs = inl e ->
  Exists (fun kv => match cat_getattr (fst kv) with
                    | None => e = AttributeError
                    | Some a => match attr_truth a with
                                | Falsy => e = AttributeError
                                | TruthRaises => e = TypeError
                                | Truthy => False
                                end
                    end) kwargs.
Proof.
  revert q; induction kwargs as [|[k v] kwargs IH]; intro q; [discriminate|].
  cbn [build_filter_loop]. destruct (cat_getattr k) as [a|] eqn:Ek.
  - destruct (attr_truth a) eqn:Ea.
    + intro H. apply Exists_cons_tl, (IH _ H).
    + intro H; injection H as <-. apply Exists_cons_hd. cbn [fst]. rewrite Ek, Ea. reflexivity.
    + intro H; injection H as <-. apply Exists_cons_hd. cbn [fst]. rewrite Ek, Ea. reflexivity.
  - intro H; injection H as <-. apply Exists_cons_hd. cbn [fst]. rewrite Ek. reflexivity.
Qed.

Lemma build_filter_loop_ok (q : Query) (kwargs : list (string * pyval)) :
  Forall (fun kv => exists a, cat_getattr (fst kv) = Some a /\ attr_truth a = Truthy) kwargs ->
  exists q', build_filter_loop q kwargs = inr q'.
Proof.
  revert q; induction kwargs as [|[k v] kwargs IH]; intros q Hf; [eexists; reflexivity|].
  inversion Hf as [|? ? [a [Ek Ea]] Hrest]; subst. cbn [build_filter_loop fst] in *.
  rewrite Ek, Ea. apply IH, Hrest.
Qed.

Lemma build_filter_loop_absent (q : Query) (kwargs : list (string * pyval)) :
  Forall (fun kv => cat_getattr (fst kv) = None \/
                    exists a, cat_getattr (fst kv) = Some a /\ attr_truth a = Truthy) kwargs ->
  Exists (fun kv => cat_getattr (fst kv) = None) kwargs ->
  build_filter_loop q kwargs = inl AttributeError.
Proof.
  revert q; induction kwargs as [|[k v] kwargs IH]; intros q Hf Hx; [inversion Hx|].
  inversion Hf as [|? ? Hk Hrest]; subst. cbn [build_filter_loop fst] in *.
  destruct Hk as [Ek | [a [Ek Ea]]]; rewrite Ek; [reflexivity|]. rewrite Ea.
  apply IH; [exact Hrest|].
  inversion Hx as [? ? Hh | ? ? Ht]; subst; [cbn [fst] in Hh; congruence | exact Ht].
Qed.

Lemma cat_getattr_declared (k : string) :
  In k ["id"; "name"; "age"; "__tablename__"; "update"]%string ->
  exists a, cat_getattr k = Some a /\ attr_truth a = Truthy.
Proof.
  intros [<- | [<- | [<- | [<- | [<- | []]]]]]; eexists; split; reflexivity.
Qed.

(** ** Slices *)

Lemma py_slice_neg_start {A} (l : list A) (start stop : Z) :
  start < 0 ->
  exists k, py_slice l start stop =
            firstn k (skipn (List.length l - Z.to_nat (- start)) l).
Proof.
  intro Hs. unfold py_slice.
  assert (Hi : adjust_index (Z.of_nat (List.length l)) start =
               Z.max 0 (start + Z.of_nat (List.length l))).
  { unfold adjust_index. destruct (start <? 0) eqn:E; [reflexivity|].
    apply Z.ltb_ge in E; lia. }
  rewrite Hi. eexists. f_equal. f_equal. lia.
Qed.

Lemma length_from_models (st : Session) : List.length (from_models st) = List.length st.
Proof. apply length_map. Qed.

Lemma firstn_min_length {A} (k : nat) (l : list A) :
  firstn (Nat.min k (List.length l)) l = firstn k l.
Proof. rewrite <- firstn_firstn, firstn_all. reflexivity. Qed.

Lemma py_slice_nonneg {A} (l : list A) (start len : Z) :
  0 <= start -> 0 <= len ->
  py_slice l start (start + len) = firstn (Z.to_nat len) (skipn (Z.to_nat start) l).
Proof.
  intros Hs Hl. unfold py_slice, adjust_index.
  destruct (start <? 0) eqn:E1; [apply Z.ltb_lt in E1; lia|].
  destruct (start + len <? 0) eqn:E2; [apply Z.ltb_lt in E2; lia|].
  set (n := List.length l).
  destruct (Nat.le_gt_cases n (Z.to_nat start)) as [Hge | Hlt].
  - rewrite !skipn_all2 by lia. rewrite !firstn_nil. reflexivity.
  - replace (Z.to_nat (Z.min start (Z.of_nat n))) with (Z.to_nat start) by lia.
    replace (Z.to_nat (Z.min (start + len) (Z.of_nat n) - Z.min start (Z.of_nat n)))
      with (Nat.min (Z.to_nat len) (List.length (skipn (Z.to_nat start) l)))
      by (rewrite length_skipn; subst n; lia).
    apply firstn_min_length.
Qed.

Lemma firstn_add_skipn {A} (n m : nat) (l : list A) :
  firstn (n + m) l = firstn n l ++ firstn m (skipn n l).
Proof.
  revert l; induction n as [|n IH]; intro l; [reflexivity|].
  destruct l as [|x l]; cbn.
  - rewrite firstn_nil. reflexivity.
  - f_equal. apply IH.
Qed.

(** * The claims *)

(** ** C1 *)

(** C1: for every create input that [create] accepts, [get_by_id] on the
    id of the returned full schema, in the session [create] leaves, yields
    that same schema. *)
Theorem create_get_by_id_roundtrip (s : CatCreateSchema) (st : Session)
    (o : option CatSchema) (st' : Session) :
  create s st = inr (o, st') ->
  exists r, o = Some r /\ get_by_id (s_id r) st' = inr (Some r, st').
Proof.
  intro H. destruct (create_success s st o st' H) as [c [-> [-> [Ht [Hin _]]]]].
  eexists; split; [reflexivity|]. cbn [from_model s_id].
  exact (get_by_id_after_insert st c Ht Hin).
Qed.

(** ** C2 *)

(** C2 (amended): with the id and the schema's integers of 64 bits (an
    [OverflowError] otherwise), [update] of an id no row holds returns
    nothing and changes nothing.  On a store with unique ids, a successful
    [update] of the row [r] of the id replaces it by [spec_row s r] (the
    fields set on the schema, the id too when set explicitly), and every
    other row is unchanged; it fails only with [OverflowError] on an
    out-of-range integer, or with [IntegrityError] when a row matches and
    the schema sets [id] to [None] or to an id another row holds; with [id]
    unset it always succeeds. *)
Theorem update_applies_set_fields (id_in : Z) (s : CatCreateSchema) (st : Session) :
  (in_int64 id_in && schema_in_int64 s = false -> update id_in s st = inl OverflowError) /\
  (in_int64 id_in && schema_in_int64 s = true -> id_taken st id_in = false ->
     update id_in s st = inr (tt, st)) /\
  (ids_unique st = true -> forall r u st', find_row st id_in = Some r ->
     update id_in s st = inr (u, st') ->
     st' = insert_by_id (spec_row s r) (filter (fun c => negb (Z.eqb (id c) id_in)) st) /\
     forall k, find_row st' k =
               if Z.eqb k (id (spec_row s r)) then Some (spec_row s r)
               else if Z.eqb k id_in then None else find_row st k) /\
  (forall e, update id_in s st = inl e ->
     (e = OverflowError /\ in_int64 id_in && schema_in_int64 s = false) \/
     (e = IntegrityError /\ in_int64 id_in && schema_in_int64 s = true /\
      id_taken st id_in = true)) /\
  (ids_unique st = true -> in_int64 id_in && schema_in_int64 s = true ->
   id_taken st id_in = true ->
     (update id_in s st = inl IntegrityError <->
      c_id s = IdSet None \/
      exists j, c_id s = IdSet (Some j) /\ j <> id_in /\ id_taken st j = true)) /\
  (ids_unique st = true -> c_id s = IdUnset -> in_int64 id_in && schema_in_int64 s = true ->
     exists st', update id_in s st = inr (tt, st')).
Proof.
  assert (Htaken : ids_unique st = true -> in_int64 id_in && schema_in_int64 s = true ->
            id_taken st id_in = true ->
            exists r, find_row st id_in = Some r /\ id r = id_in /\
              update id_in s st =
              match c_id s with
              | IdSet None => inl IntegrityError
              | _ => if negb (Z.eqb (id (spec_row s r)) id_in) && id_taken st (id (spec_row s r))
                     then inl IntegrityError
                     else inr (tt, insert_by_id (spec_row s r)
                                     (filter (fun c => negb (Z.eqb (id c) id_in)) st))
              end).
  { intros Hu Hin Ht. destruct (find_row_id_taken st id_in Ht) as [r Hf].
    exists r. split; [exact Hf|]. split; [exact (proj2 (find_row_some _ _ _ Hf))|].
    rewrite (update_unique_eq id_in s st r Hu Hf Hin). cbv zeta.
    rewrite id_taken_filter_neg. reflexivity. }
  refine (conj _ (conj _ (conj _ (conj _ (conj _ _))))).
  - intro Hin. rewrite update_eq, Hin. reflexivity.
  - intros Hin Ht. rewrite update_eq, Hin, Ht. reflexivity.
  - intros Hu r u st' Hf H.
    destruct (update_success id_in s st u st' Hu H) as [[Ht _] | [r' [Hf' [_ [Hfree ->]]]]].
    + apply find_row_none in Ht. congruence.
    + rewrite Hf in Hf'. injection Hf' as <-. split; [reflexivity|].
      intro k. rewrite find_row_insert by exact Hfree. rewrite find_row_filter_neg. reflexivity.
  - intros e H. rewrite update_eq in H.
    destruct (in_int64 id_in && schema_in_int64 s) eqn:Hin.
    + destruct (id_taken st id_in) eqn:Ht; [|discriminate H].
      right. refine (conj _ (conj eq_refl eq_refl)).
      destruct (map_option _ _); [cbv zeta in H;
        match type of H with context [ids_unique ?x] => destruct (ids_unique x) end|];
        cbv iota in H; congruence.
    + left. split; [congruence | reflexivity].
  - intros Hu Hin Ht. destruct (Htaken Hu Hin Ht) as [r [_ [Hid ->]]].
    rewrite spec_row_id. destruct (c_id s) as [|[j|]].
    + rewrite Hid, Z.eqb_refl. cbn [negb andb]. split; [discriminate|].
      intros [H | [j [H _]]]; discriminate H.
    + split.
      * destruct (Z.eqb_spec j id_in) as [Ej|Ej]; cbn [negb andb];
          [discriminate|]. destruct (id_taken st j) eqn:Ej'; [|discriminate].
        intros _. right. exists j. auto.
      * intros [H | [j' [H [Hne Hj]]]]; [discriminate H|]. injection H as <-.
        replace (j =? id_in) with false by (symmetry; apply Z.eqb_neq; exact Hne).
        rewrite Hj. reflexivity.
    + split; [intros _; left; reflexivity | reflexivity].
  - intros Hu Hs Hin. destruct (id_taken st id_in) eqn:Ht.
    + destruct (Htaken Hu Hin eq_refl) as [r [_ [Hid ->]]].
      rewrite spec_row_id, Hs, Hid, Z.eqb_refl. cbn [negb andb]. eexists; reflexivity.
    + exists st. rewrite update_eq, Hin, Ht. reflexivity.
Qed.

(** ** C3 *)

(** C3 (amended): for an id of 64 bits, with no row of that id [crupdate]
    leaves the store as [create] does, and with one as [update] does; an id
    outside 64 bits makes [crupdate] fail with [OverflowError]. *)
Theorem crupdate_create_or_update (id_in : Z) (s : CatCreateSchema) (st : Session) :
  (in_int64 id_in = true -> id_taken st id_in = false ->
     store_effect (crupdate id_in s st) = store_effect (create s st)) /\
  (in_int64 id_in = true -> id_taken st id_in = true ->
     store_effect (crupdate id_in s st) = store_effect (update id_in s st)) /\
  (in_int64 id_in = false -> crupdate id_in s st = inl OverflowError).
Proof.
  rewrite crupdate_eq. split; [|split].
  - intros Hin Ht. rewrite Hin, (proj2 (find_row_none st id_in) Ht).
    destruct (create s st) as [e|[o st']]; reflexivity.
  - intros Hin Ht. rewrite Hin. destruct (find_row st id_in) eqn:Ef; [reflexivity|].
    apply find_row_none in Ef. congruence.
  - intro Hin. rewrite Hin. reflexivity.
Qed.

(** ** C4 *)

(** C4 (amended): for an id of 64 bits, when a row has the id [delete]
    removes it and returns its full schema, and [get_by_id] then finds
    nothing; when none has, [delete] fails ([session.delete(None)]) instead
    of returning an absent result.  An id outside 64 bits makes [delete]
    and [get_by_id] fail with [OverflowError]. *)
Theorem delete_then_get_by_id (id_in : Z) (st : Session) :
  (in_int64 id_in = true -> id_taken st id_in = true ->
     exists r st', In r st /\ id r = id_in /\
       delete id_in st = inr (from_model (Some r), st') /\
       st' = filter (fun c => negb (Z.eqb (id c) id_in)) st /\ ~ In r st' /\
       get_by_id id_in st' = inr (None, st')) /\
  (in_int64 id_in = true -> id_taken st id_in = false ->
     delete id_in st = inl UnmappedInstanceError) /\
  (in_int64 id_in = false ->
     delete id_in st = inl OverflowError /\ get_by_id id_in st = inl OverflowError).
Proof.
  rewrite delete_eq. split; [|split].
  - intros Hin Ht. rewrite Hin. destruct (find_row_id_taken st id_in Ht) as [r Ef].
    rewrite Ef. destruct (find_row_some st id_in r Ef) as [Hr Hid].
    exists r, (filter (fun c => negb (Z.eqb (id c) id_in)) st).
    repeat split; auto.
    + intro H. apply filter_In in H as [_ H]. rewrite Hid, Z.eqb_refl in H. discriminate.
    + rewrite get_by_id_eq, Hin, find_row_filter_neg, Z.eqb_refl. reflexivity.
  - intros Hin Ht. rewrite Hin, (proj2 (find_row_none st id_in) Ht). reflexivity.
  - intro Hin. rewrite Hin, get_by_id_eq, Hin. split; reflexivity.
Qed.

(** ** C5 *)

(** C5 (amended): [create] passes every schema field, [id] included, to
    the entity: with the schema's integers of 64 bits (an [OverflowError]
    otherwise), an integer id given in the schema is the id persisted (an
    [IntegrityError] if a row already holds it), and only an absent or
    [None] id is assigned by the store: [1] in an empty table, one more
    than the largest id while that fits in 64 bits, and past it a free id
    in [1 .. 2^62] the store picks, or [OperationalError] when it finds
    none.  The row takes its place in id order. *)
Theorem create_uses_given_id (s : CatCreateSchema) (st : Session) :
  (schema_in_int64 s = false -> create s st = inl OverflowError) /\
  (forall i, id_value (c_id s) = Some i -> schema_in_int64 s = true ->
     (id_taken st i = true -> create s st = inl IntegrityError) /\
     (id_taken st i = false ->
        create s st = inr (Some (mkCatSchema i (c_name s) (c_age s)),
                           insert_by_id (mkCat i (c_name s) (c_age s)) st))) /\
  (id_value (c_id s) = None -> schema_in_int64 s = true ->
     match next_rowid st with
     | Some i => create s st = inr (Some (mkCatSchema i (c_name s) (c_age s)),
                                    insert_by_id (mkCat i (c_name s) (c_age s)) st)
     | None => create s st = inl OperationalError
     end) /\
  (st = [] -> next_rowid st = Some 1) /\
  (forall m, max_rowid st = Some m -> int64_min <= m < int64_max ->
     next_rowid st = Some (m + 1)) /\
  (max_rowid st = Some int64_max -> forall i, next_rowid st = Some i -> 1 <= i <= 2 ^ 62) /\
  (forall i, next_rowid st = Some i -> id_taken st i = false /\ in_int64 i = true) /\
  (forallb (fun r => in_int64 (id r)) st = true -> next_rowid st = None ->
     max_rowid st = Some int64_max) /\
  (forall m, max_rowid st = Some m ->
     (exists r, In r st /\ id r = m) /\ forall r, In r st -> id r <= m).
Proof.
  rewrite !create_eq. cbv zeta.
  refine (conj _ (conj _ (conj _ (conj _ (conj _ (conj _ (conj _ (conj _ _)))))))).
  - intro Hs. rewrite Hs. reflexivity.
  - intros i Hi Hs. rewrite Hs, Hi. split; intro Ht; rewrite Ht; reflexivity.
  - intros Hn Hs. rewrite Hs, Hn. destruct (next_rowid st); reflexivity.
  - intros ->. reflexivity.
  - intros m Hm Hb. unfold next_rowid. rewrite Hm.
    replace (in_int64 (m + 1)) with true; [reflexivity|].
    symmetry. apply in_int64_iff. unfold int64_min, int64_max in Hb. lia.
  - intros Hm i. unfold next_rowid. rewrite Hm.
    replace (in_int64 (int64_max + 1)) with false by reflexivity.
    intro H. destruct (find_free_spec st _ 1 i H) as [Hb _]. exact Hb.
  - apply next_rowid_spec.
  - intros Hall. unfold next_rowid. destruct (max_rowid st) as [m|] eqn:Em; [|discriminate].
    destruct (in_int64 (m + 1)) eqn:E1; [discriminate|]. intros _.
    destruct (max_rowid_spec st m Em) as [[r [Hr <-]] _].
    rewrite forallb_forall in Hall. specialize (Hall r Hr).
    apply in_int64_iff in Hall. f_equal.
    destruct (Z.eq_dec (id r) int64_max) as [E|E]; [exact E|].
    exfalso. assert (Hin : in_int64 (id r + 1) = true)
      by (apply in_int64_iff; unfold int64_max in E; lia).
    congruence.
  - apply max_rowid_spec.
Qed.

(** ** C6 *)

(** C6 (amended): on a store with unique ids, every successful [create],
    [update], [crupdate] and [delete] leaves unique ids, and a write that
    would duplicate an id, or null it, fails with [IntegrityError].
    [create] only inserts a row with a free id and [delete] only removes
    the rows of its id, so the other rows keep theirs.  [update] keeps the
    set of ids when its schema leaves [id] unset or sets it to the updated
    row's own id; an [update] whose schema sets another id rewrites that
    row's primary key: the old id is freed and the new one taken. *)
Theorem ids_unique_preserved (st : Session) :
  ids_unique st = true ->
  (forall s o st', create s st = inr (o, st') ->
     ids_unique st' = true /\ exists r, id_taken st (id r) = false /\ st' = insert_by_id r st) /\
  (forall s i, id_value (c_id s) = Some i -> schema_in_int64 s = true -> id_taken st i = true ->
     create s st = inl IntegrityError) /\
  (forall id_in s u st', update id_in s st = inr (u, st') ->
     ids_unique st' = true /\
     (c_id s = IdUnset \/ c_id s = IdSet (Some id_in) ->
        forall k, id_taken st' k = id_taken st k)) /\
  (forall id_in s, in_int64 id_in && schema_in_int64 s = true -> id_taken st id_in = true ->
     c_id s = IdSet None \/
     (exists j, c_id s = IdSet (Some j) /\ j <> id_in /\ id_taken st j = true) ->
     update id_in s st = inl IntegrityError) /\
  (forall id_in s j u st', c_id s = IdSet (Some j) -> j <> id_in -> id_taken st id_in = true ->
     update id_in s st = inr (u, st') ->
     id_taken st' j = true /\ id_taken st' id_in = false) /\
  (forall id_in s u st', crupdate id_in s st = inr (u, st') -> ids_unique st' = true) /\
  (forall id_in o st', delete id_in st = inr (o, st') ->
     ids_unique st' = true /\ st' = filter (fun r => negb (Z.eqb (id r) id_in)) st).
Proof.
  intro Hu. refine (conj _ (conj _ (conj _ (conj _ (conj _ (conj _ _)))))).
  - intros s o st' H. split; [exact (create_success_unique s st o st' Hu H)|].
    destruct (create_success s st o st' H) as [c [_ [-> [Ht _]]]]. eauto.
  - intros s i Hi Hs Ht. rewrite create_eq, Hs, Hi, Ht. reflexivity.
  - intros id_in s u st' H. split; [exact (update_success_unique id_in s st u st' Hu H)|].
    intros Hs k.
    destruct (update_success id_in s st u st' Hu H) as [[_ ->] | [r [Hf [_ [_ ->]]]]];
      [reflexivity|].
    destruct (find_row_some st id_in r Hf) as [Hr Hid].
    assert (Ht : id_taken st id_in = true) by (apply id_taken_spec; eauto).
    assert (Hsid : id (spec_row s r) = id_in)
      by (rewrite spec_row_id; destruct Hs as [-> | ->]; [exact Hid | reflexivity]).
    rewrite id_taken_insert, id_taken_filter_neg, Hsid.
    destruct (Z.eqb_spec id_in k) as [<-|Hne]; [rewrite Ht; reflexivity|].
    replace (k =? id_in) with false by (symmetry; apply Z.eqb_neq; congruence). reflexivity.
  - intros id_in s Hin Ht Hs.
    destruct (find_row_id_taken st id_in Ht) as [r Hf].
    destruct (find_row_some st id_in r Hf) as [_ Hid].
    rewrite (update_unique_eq id_in s st r Hu Hf Hin).
    destruct Hs as [-> | [j [Hs [Hne Hj]]]]; [reflexivity|]. rewrite Hs. cbv zeta.
    rewrite spec_row_id, Hs, id_taken_filter_neg, Hj.
    replace (j =? id_in) with false by (symmetry; apply Z.eqb_neq; exact Hne). reflexivity.
  - intros id_in s j u st' Hs Hne Ht H.
    destruct (update_success id_in s st u st' Hu H) as [[Ht' _] | [r [_ [_ [_ ->]]]]];
      [congruence|].
    rewrite !id_taken_insert, spec_row_id, Hs, Z.eqb_refl, filter_neg_id_untaken.
    replace (j =? id_in) with false by (symmetry; apply Z.eqb_neq; exact Hne).
    split; reflexivity.
  - intros id_in s u st'. rewrite crupdate_eq.
    destruct (in_int64 id_in); [|discriminate]. destruct (find_row st id_in).
    + apply update_success_unique, Hu.
    + destruct (create s st) as [e|[o st'']] eqn:Ec; [discriminate|].
      intro H; injection H as H; subst st'. exact (create_success_unique s st o st'' Hu Ec).
  - intros id_in o st'. rewrite delete_eq. destruct (in_int64 id_in); [|discriminate].
    destruct (find_row st id_in); [|discriminate]. intro H; injection H as _ <-.
    split; [apply ids_unique_filter, Hu | reflexivity].
Qed.

(** ** C7 *)

(** C7 (amended): for pairs whose value has the Python type of its field
    (an [int] of 64 bits for [id] and [age], a [str] for [name], or
    [None]), [find_all_by_filters] returns, in table order, the full
    schemas of exactly the rows matching every pair; for [name="Tom"],
    exactly the rows named ["Tom"].  Other values are compared after
    SQLite's type conversions: a text that is an integer literal equals
    that integer on [id] and [age], an integer equals its decimal text on
    [name], and an [int] outside 64 bits raises [OverflowError]. *)
Theorem find_all_by_filters_conjunctive :
  (forall (kwargs : list (string * pyval)) (st : Session),
     forallb filter_value_typed kwargs = true ->
     find_all_by_filters kwargs st =
     inr (from_models (filter (fun r => forallb (field_matches r) kwargs) st), st)) /\
  (forall (st : Session) res st',
     find_all_by_filters [("name"%string, PStr "Tom")] st = inr (res, st') ->
     st' = st /\
     forall x, In x res <-> exists r, In r st /\ name r = "Tom"%string /\ x = from_model (Some r)) /\
  (forall (t : string) (z : Z) (k : string) (st : Session),
     integer_literal t = Some z -> in_int64 z = true -> k = "id"%string \/ k = "age"%string ->
     find_all_by_filters [(k, PStr t)] st = find_all_by_filters [(k, PInt z)] st) /\
  (forall (z : Z) (st : Session), in_int64 z = true ->
     find_all_by_filters [("name"%string, PInt z)] st =
     find_all_by_filters [("name"%string, PStr (int_to_text z))] st) /\
  (forall (kwargs : list (string * pyval)) (st : Session),
     Forall (fun kv => In (fst kv) entity_fields) kwargs ->
     existsb (fun kv => negb (param_in_int64 (snd kv))) kwargs = true ->
     find_all_by_filters kwargs st = inl OverflowError).
Proof.
  assert (Htyped : forall (kwargs : list (string * pyval)) (st : Session),
     forallb filter_value_typed kwargs = true ->
     find_all_by_filters kwargs st =
     inr (from_models (filter (fun r => forallb (field_matches r) kwargs) st), st)).
  { intros kwargs st Ht.
    assert (Hf : Forall (fun kv => In (fst kv) entity_fields) kwargs).
    { apply Forall_forall. intros kv Hkv. apply filter_value_typed_field.
      rewrite forallb_forall in Ht. exact (Ht kv Hkv). }
    destruct (find_all_by_filters_fields kwargs st Hf) as [q [_ [Hq Hm]]].
    rewrite Hq.
    replace (forallb (fun kv => param_in_int64 (snd kv)) kwargs) with true.
    - rewrite (filter_ext _ _ (Hm Ht)). reflexivity.
    - symmetry. apply forallb_forall. intros kv Hkv. apply filter_value_typed_int64.
      rewrite forallb_forall in Ht. exact (Ht kv Hkv). }
  refine (conj Htyped (conj _ (conj _ (conj _ _)))).
  - intros st res st' H. rewrite Htyped in H by reflexivity. injection H as <- <-.
    split; [reflexivity|].
    intro x. unfold from_models. rewrite in_map_iff. split.
    + intros [r [<- Hr]]. apply filter_In in Hr as [Hr Hn].
      exists r. cbn in Hn. rewrite andb_true_r in Hn. apply String.eqb_eq in Hn. auto.
    + intros [r [Hr [Hn ->]]]. exists r. split; [reflexivity|].
      apply filter_In. split; [exact Hr|]. cbn. rewrite Hn. reflexivity.
  - intros t z k st Hl Hz Hk.
    assert (Ht : text_numeric_integer t = Some z) by (apply text_numeric_integer_literal; auto).
    assert (Hcol : forall c, c = ColId \/ c = ColAge ->
              cat_getattr k = Some (ColAttr c) ->
              find_all_by_filters [(k, PStr t)] st = find_all_by_filters [(k, PInt z)] st).
    { intros c Hc Ek. rewrite (find_all_one_column k c (PStr t) st Ek),
        (find_all_one_column k c (PInt z) st Ek). cbn [param_in_int64]. rewrite Hz.
      rewrite (filter_ext (fun r => sql_col_eq r c (PStr t)) (fun r => sql_col_eq r c (PInt z)));
        [reflexivity|].
      intro r. destruct Hc as [-> | ->]; cbn [sql_col_eq]; rewrite Ht; reflexivity. }
    destruct Hk as [-> | ->]; [apply (Hcol ColId) | apply (Hcol ColAge)]; auto.
  - intros z st Hz.
    rewrite (find_all_one_column "name"%string ColName (PInt z) st eq_refl),
      (find_all_one_column "name"%string ColName (PStr (int_to_text z)) st eq_refl).
    cbn [param_in_int64]. rewrite Hz. reflexivity.
  - intros kwargs st Hf Hx. destruct (find_all_by_filters_fields kwargs st Hf) as [q [_ [Hq _]]].
    rewrite Hq. replace (forallb (fun kv => param_in_int64 (snd kv)) kwargs) with false;
      [reflexivity|].
    symmetry. apply existsb_exists in Hx as [kv [Hkv Hn]].
    apply negb_true_iff in Hn. destruct (forallb _ kwargs) eqn:E; [|reflexivity].
    rewrite forallb_forall in E. rewrite (E kv Hkv) in Hn. discriminate.
Qed.

(** ** C8 *)

(** C8 (amended): [build_filter_query] fails only with [AttributeError] or
    [TypeError].  Every name [src/app/models] declares on the class (the
    three columns, [__tablename__], [BaseModel.update]) is accepted.  It
    accepts names all of whose class attributes are truthy; when every
    requested name is absent or names a truthy attribute, it fails with
    [AttributeError] exactly when some requested name is absent.  An
    [AttributeError] comes from an absent or falsy attribute, a [TypeError]
    from one whose truth value raises ([not Cat.__table__]).  A class
    attribute that is no column, such as [update], is accepted and
    compares as Python [False]. *)
Theorem build_filter_query_attribute_error (kwargs : list (string * pyval)) :
  (forall e, build_filter_query kwargs = inl e -> e = AttributeError \/ e = TypeError) /\
  (Forall (fun kv => exists a, cat_getattr (fst kv) = Some a /\ attr_truth a = Truthy) kwargs ->
     exists q, build_filter_query kwargs = inr q) /\
  (Forall (fun kv => cat_getattr (fst kv) = None \/
                     exists a, cat_getattr (fst kv) = Some a /\ attr_truth a = Truthy) kwargs ->
     (build_filter_query kwargs = inl AttributeError <->
      Exists (fun kv => cat_getattr (fst kv) = None) kwargs)) /\
  (build_filter_query kwargs = inl AttributeError ->
     Exists (fun kv => cat_getattr (fst kv) = None \/
                       exists a, cat_getattr (fst kv) = Some a /\ attr_truth a = Falsy) kwargs) /\
  (build_filter_query kwargs = inl TypeError ->
     Exists (fun kv => exists a, cat_getattr (fst kv) = Some a /\ attr_truth a = TruthRaises)
       kwargs) /\
  (Forall (fun kv => In (fst kv) ["id"; "name"; "age"; "__tablename__"; "update"]%string)
     kwargs -> exists q, build_filter_query kwargs = inr q) /\
  (forall v, build_filter_query [("update"%string, v)] = inr [ConstCrit false]).
Proof.
  unfold build_filter_query.
  refine (conj _ (conj (build_filter_loop_ok [] kwargs) (conj _ (conj _ (conj _ (conj _ _)))))).
  - intros e H. apply build_filter_loop_error, Exists_exists in H as [[k v] [_ Hk]].
    cbn [fst] in Hk. destruct (cat_getattr k) as [a|]; [destruct (attr_truth a)|]; tauto.
  - intro Hf. split; [|apply build_filter_loop_absent, Hf].
    intro H. apply build_filter_loop_error, Exists_exists in H as [kv [Hkv Hk]].
    apply Exists_exists. exists kv. split; [exact Hkv|].
    rewrite Forall_forall in Hf. destruct (Hf kv Hkv) as [E | [a [E Ea]]]; [exact E|].
    rewrite E, Ea in Hk. destruct Hk.
  - intro H. apply build_filter_loop_error, Exists_exists in H as [kv [Hkv Hk]].
    apply Exists_exists. exists kv. split; [exact Hkv|].
    destruct (cat_getattr (fst kv)) as [a|]; [|left; reflexivity].
    right. exists a. split; [reflexivity|]. destruct (attr_truth a); first [contradiction | congruence].
  - intro H. apply build_filter_loop_error, Exists_exists in H as [kv [Hkv Hk]].
    apply Exists_exists. exists kv. split; [exact Hkv|].
    destruct (cat_getattr (fst kv)) as [a|]; [|discriminate].
    exists a. split; [reflexivity|]. destruct (attr_truth a); first [contradiction | congruence].
  - intro Hf. apply build_filter_loop_ok. apply Forall_forall. intros kv Hkv.
    apply cat_getattr_declared. rewrite Forall_forall in Hf. exact (Hf kv Hkv).
  - intro v. reflexivity.
Qed.

(** ** C9 *)

(** C9: [find_all_by_filters] with no pairs is [get_all]. *)
Theorem find_all_by_filters_empty (st : Session) :
  find_all_by_filters [] st = get_all st.
Proof. reflexivity. Qed.

(** ** C10 *)

(** C10: [GET /cats] never fails and returns [get_all()[skip:skip+limit]]
    under Python's slice rules: with [skip < 0] the answer is a prefix of
    the last [-skip] cats, and with [skip = -1] it is empty or the last cat
    alone. *)
Theorem get_all_cats_slice (skip limit : Z) (st : Session) :
  get_all_cats skip limit st = inr (py_slice (from_models st) skip (skip + limit), st) /\
  (skip < 0 -> exists k, py_slice (from_models st) skip (skip + limit) =
                         firstn k (skipn (List.length st - Z.to_nat (- skip)) (from_models st))) /\
  (skip = -1 -> py_slice (from_models st) skip (skip + limit) = [] \/
                py_slice (from_models st) skip (skip + limit) =
                skipn (List.length st - 1) (from_models st)).
Proof.
  split.
  { unfold get_all_cats, bind at 1. rewrite get_all_eq. reflexivity. }
  assert (Hneg : skip < 0 -> exists k, py_slice (from_models st) skip (skip + limit) =
                   firstn k (skipn (List.length st - Z.to_nat (- skip)) (from_models st))).
  { intro Hs. rewrite <- (length_from_models st). apply py_slice_neg_start, Hs. }
  split; [exact Hneg|].
  intro Hs. destruct (Hneg ltac:(lia)) as [k Hk]. rewrite Hk, Hs. cbn [Z.opp Z.to_nat Pos.to_nat].
  replace (Pos.to_nat 1) with 1%nat by reflexivity.
  destruct k as [|k]; [left; reflexivity | right].
  apply firstn_all2. rewrite length_skipn, length_from_models. lia.
Qed.

(** * Further properties of the service and the routes *)

(** ** X2, X3: [find_one_by_filters] and [get_by_id] *)

(** [find_one_by_filters] answers the first element of what
    [find_all_by_filters] answers, or [None], and fails exactly as it does. *)
Theorem find_one_is_first_of_find_all (kwargs : list (string * pyval)) (st : Session) :
  find_one_by_filters kwargs st =
  match find_all_by_filters kwargs st with
  | inl e => inl e
  | inr (l, st') => inr (match first l with Some x => x | None => None end, st')
  end.
Proof.
  unfold find_one_by_filters, find_all_by_filters, execute_and_get_one,
    execute_and_get_all, bind, lift, raise, ret, execute_scalars.
  destruct (build_filter_query kwargs) as [e|q]; [reflexivity|].
  destruct (query_in_int64 q); [|reflexivity].
  unfold from_models. destruct (filter (query_matches q) st); reflexivity.
Qed.

(** [get_by_id i] is [find_one_by_filters(id=i)]. *)
Theorem get_by_id_is_filter (i : Z) (st : Session) :
  get_by_id i st = find_one_by_filters [("id"%string, PInt i)] st.
Proof. reflexivity. Qed.

(** ** X4: [get_by_id] on a store with unique ids *)

(** On a store with unique ids, [get_by_id] of a 64-bit id returns the
    schema of the row with that id, and [None] when no row has it; an id
    outside 64 bits raises [OverflowError]. *)
Theorem get_by_id_lookup (st : Session) :
  ids_unique st = true ->
  (forall r, In r st -> in_int64 (id r) = true ->
     get_by_id (id r) st = inr (Some (mkCatSchema (id r) (name r) (age r)), st)) /\
  (forall i, in_int64 i = true -> id_taken st i = false -> get_by_id i st = inr (None, st)) /\
  (forall i, in_int64 i = false -> get_by_id i st = inl OverflowError).
Proof.
  intro Hu. split; [|split].
  - intros r Hr Hin. rewrite get_by_id_eq, Hin, find_row_unique by assumption. reflexivity.
  - intros i Hin Ht. rewrite get_by_id_eq, Hin, (proj2 (find_row_none st i) Ht). reflexivity.
  - intros i Hin. rewrite get_by_id_eq, Hin. reflexivity.
Qed.

(** ** X5: [create] then [delete] *)

(** Deleting the id [create] returned restores the store and returns the
    created schema. *)
Theorem create_then_delete (s : CatCreateSchema) (st : Session) (r : CatSchema)
    (st' : Session) :
  create s st = inr (Some r, st') -> delete (s_id r) st' = inr (Some r, st).
Proof.
  intro H. destruct (create_success s st (Some r) st' H) as [c [Hr [-> [Ht [Hin _]]]]].
  injection Hr as ->. cbn [s_id]. rewrite delete_eq, Hin, find_row_insert, Z.eqb_refl by exact Ht.
  rewrite filter_neg_insert_fresh by exact Ht. reflexivity.
Qed.

(** ** X6: [update] then [get_by_id] *)

(** On a store with unique ids, an [update] of an existing row, with a
    64-bit id and age and a schema that leaves [id] unset, succeeds, and
    [get_by_id] then returns the row with the same id and the schema's
    name and age. *)
Theorem update_then_get_by_id (st : Session) (r : Cat) (s : CatCreateSchema) :
  ids_unique st = true -> In r st -> c_id s = IdUnset ->
  in_int64 (id r) = true -> in_int64 (c_age s) = true ->
  exists st', update (id r) s st = inr (tt, st') /\
              get_by_id (id r) st' = inr (Some (mkCatSchema (id r) (c_name s) (c_age s)), st').
Proof.
  intros Hu Hr Hs Hid Ha.
  assert (Hin : in_int64 (id r) && schema_in_int64 s = true)
    by (unfold schema_in_int64; rewrite Hs, Hid, Ha; reflexivity).
  rewrite (update_unique_eq (id r) s st r Hu (find_row_unique st r Hu Hr) Hin), Hs. cbv zeta.
  assert (Hsid : id (spec_row s r) = id r) by (rewrite spec_row_id, Hs; reflexivity).
  rewrite Hsid, filter_neg_id_untaken. eexists. split; [reflexivity|].
  rewrite <- Hsid at 1. rewrite get_by_id_after_insert; rewrite ?Hsid.
  - unfold spec_row. rewrite Hs. reflexivity.
  - apply filter_neg_id_untaken.
  - exact Hid.
Qed.

(** ** X7: [delete] twice *)

(** After a successful [delete], deleting the same id again fails with the
    [session.delete(None)] error. *)
Theorem delete_twice_fails (i : Z) (st : Session) (o : option CatSchema) (st' : Session) :
  delete i st = inr (o, st') -> delete i st' = inl UnmappedInstanceError.
Proof.
  rewrite delete_eq. destruct (in_int64 i) eqn:Hin; [|discriminate].
  destruct (find_row st i) as [c|]; [|discriminate].
  intro H; injection H as _ <-. rewrite delete_eq, Hin, find_row_filter_neg, Z.eqb_refl.
  reflexivity.
Qed.

(** ** X8: [crupdate] on a missing id *)

(** [crupdate(i, s)] with no row [i] and [s.id] unset does not create row
    [i]: when it succeeds it inserts a row with the id the store assigns,
    and unless that id happens to be [i], [get_by_id i] still finds
    nothing afterwards. *)
Theorem crupdate_missing_id_not_created (i : Z) (s : CatCreateSchema) (st : Session)
    (u : unit) (st' : Session) :
  id_taken st i = false -> c_id s = IdUnset ->
  crupdate i s st = inr (u, st') ->
  exists j, next_rowid st = Some j /\
            st' = insert_by_id (mkCat j (c_name s) (c_age s)) st /\
            (j = i \/ get_by_id i st' = inr (None, st')).
Proof.
  intros Ht Hs. rewrite crupdate_eq. destruct (in_int64 i) eqn:Hin; [|discriminate].
  rewrite (proj2 (find_row_none st i) Ht).
  destruct (create s st) as [e|[o st'']] eqn:Ec; [discriminate|].
  intro H; injection H as H; subst st'.
  destruct (create_success s st o st'' Ec) as [c [_ [-> [Hc [_ [Hn [Ha Hj]]]]]]].
  rewrite Hs in Hj. cbn [id_value] in Hj. exists (id c). split; [exact Hj|].
  split; [destruct c; cbn in *; subst; reflexivity|].
  destruct (Z.eq_dec (id c) i) as [E|E]; [left; exact E|right].
  rewrite get_by_id_eq, Hin, find_row_insert by exact Hc.
  replace (i =? id c) with false by (symmetry; apply Z.eqb_neq; congruence).
  rewrite (proj2 (find_row_none st i) Ht). reflexivity.
Qed.

(** ** X9, X10: pagination of [GET /cats] *)

(** With [skip >= 0] and [limit >= 0], [GET /cats] returns the [limit] cats
    that follow the first [skip] ones (fewer at the end of the table). *)
Theorem get_all_cats_page (skip limit : Z) (st : Session) :
  0 <= skip -> 0 <= limit ->
  get_all_cats skip limit st =
  inr (firstn (Z.to_nat limit) (skipn (Z.to_nat skip) (from_models st)), st).
Proof.
  intros Hs Hl. unfold get_all_cats, bind at 1. rewrite get_all_eq.
  unfold ret. rewrite py_slice_nonneg by assumption. reflexivity.
Qed.

(** Consecutive pages of [GET /cats] concatenate: the page at [skip] of size
    [a] followed by the page at [skip + a] of size [b] is the page at
    [skip] of size [a + b]. *)
Theorem get_all_cats_pages_concat (skip a b : Z) (st : Session) :
  0 <= skip -> 0 <= a -> 0 <= b ->
  exists p1 p2, get_all_cats skip a st = inr (p1, st) /\
                get_all_cats (skip + a) b st = inr (p2, st) /\
                get_all_cats skip (a + b) st = inr (p1 ++ p2, st).
Proof.
  intros Hs Ha Hb. do 2 eexists.
  rewrite !get_all_cats_page by lia. split; [reflexivity|]. split; [reflexivity|].
  do 2 f_equal.
  rewrite Z2Nat.inj_add by lia. rewrite firstn_add_skipn, skipn_skipn.
  rewrite Z2Nat.inj_add by lia. rewrite Nat.add_comm. reflexivity.
Qed.

(** ** X11: [GET /cats/{cat_id}] *)

(** [GET /cats/{cat_id}] with a 64-bit id answers 404 exactly when no row
    has the id, and otherwise returns the schema of a row with that id; an
    id outside 64 bits fails with an unhandled [OverflowError]. *)
Theorem get_cat_by_id_404 (cat_id : Z) (st : Session) :
  (in_int64 cat_id = true -> id_taken st cat_id = false ->
     get_cat_by_id cat_id st = inl (HTTPException 404)) /\
  (in_int64 cat_id = true -> id_taken st cat_id = true ->
     exists r, In r st /\ id r = cat_id /\
               get_cat_by_id cat_id st = inr (mkCatSchema (id r) (name r) (age r), st)) /\
  (in_int64 cat_id = false -> get_cat_by_id cat_id st = inl (Unhandled OverflowError)).
Proof.
  unfold get_cat_by_id, service. rewrite get_by_id_eq. split; [|split].
  - intros Hin Ht. rewrite Hin, (proj2 (find_row_none st cat_id) Ht). reflexivity.
  - intros Hin Ht. rewrite Hin. destruct (find_row_id_taken st cat_id Ht) as [r Ef].
    rewrite Ef. destruct (find_row_some st cat_id r Ef) as [Hr Hid].
    exists r. split; [exact Hr|]. split; [exact Hid | reflexivity].
  - intro Hin. rewrite Hin. reflexivity.
Qed.

(** ** X12: [POST /cats] *)

(** [POST /cats] never answers an [HTTPException]; it fails only with an
    unhandled exception of the store: [OverflowError] when an integer of
    the body does not fit in 64 bits, [IntegrityError] when the body gives
    an id a row already holds, [OperationalError] when the store finds no
    free id to assign. *)
Theorem create_cat_errors (cat : CatCreateSchema) (st : Session) (e : RouteErr) :
  create_cat cat st = inl e ->
  (e = Unhandled OverflowError /\ schema_in_int64 cat = false) \/
  (e = Unhandled IntegrityError /\ schema_in_int64 cat = true /\
   exists i, id_value (c_id cat) = Some i /\ id_taken st i = true) \/
  (e = Unhandled OperationalError /\ schema_in_int64 cat = true /\
   id_value (c_id cat) = None /\ next_rowid st = None).
Proof.
  unfold create_cat, service. rewrite create_eq. cbv zeta.
  destruct (schema_in_int64 cat) eqn:Hs;
    [|intro H; injection H as <-; left; auto].
  destruct (id_value (c_id cat)) as [i|] eqn:Hi.
  - destruct (id_taken st i) eqn:Ht; [|discriminate].
    intro H; injection H as <-. right; left. split; [reflexivity|]. split; [reflexivity|].
    exists i. auto.
  - destruct (next_rowid st) eqn:En; [discriminate|].
    intro H; injection H as <-. right; right. auto.
Qed.

End Store.

(** * Evaluated instances *)

(** ** Sanity checks on small inputs *)

Example create_tom :
  create tom [] = inr (Some (mkCatSchema 1 "Tom" 3), [mkCat 1 "Tom" 3]).
Proof. reflexivity. Qed.

Example get_missing :
  get_by_id no_real_integer 999 [mkCat 1 "Tom" 3] = inr (None, [mkCat 1 "Tom" 3]).
Proof. reflexivity. Qed.

Example get_out_of_range :
  get_by_id no_real_integer (2 ^ 63) [mkCat 1 "Tom" 3] = inl OverflowError.
Proof. reflexivity. Qed.

Example next_rowid_negative :
  next_rowid [mkCat (-5) "Tom" 3] = Some (-4).
Proof. reflexivity. Qed.

Example find_id_as_text :
  find_all_by_filters no_real_integer no_inherited_attr [("id"%string, PStr " 1 ")]
    [mkCat 1 "Tom" 3] = inr ([Some (mkCatSchema 1 "Tom" 3)], [mkCat 1 "Tom" 3]).
Proof. reflexivity. Qed.

Example find_name_as_int :
  find_all_by_filters no_real_integer no_inherited_attr [("name"%string, PInt (-12))]
    [mkCat 1 "-12" 3] = inr ([Some (mkCatSchema 1 "-12" 3)], [mkCat 1 "-12" 3]).
Proof. reflexivity. Qed.

Example slice_neg :
  py_slice [1;2;3] (-1) 1 = [] /\ py_slice [1;2;3] (-1) 5 = [3]
  /\ py_slice [1;2;3] (-2) 0 = [] /\ py_slice [1;2;3] 1 10 = [2;3].
Proof. repeat split; reflexivity. Qed.

(** ** C1 *)

Lemma create_get_by_id_roundtrip_witness :
  create tom [] = inr (Some (mkCatSchema 1 "Tom" 3), [mkCat 1 "Tom" 3]) /\
  exists r, Some (mkCatSchema 1 "Tom" 3) = Some r /\
            get_by_id no_real_integer (s_id r) [mkCat 1 "Tom" 3] =
            inr (Some r, [mkCat 1 "Tom" 3]).
Proof.
  split; [reflexivity|].
  apply (create_get_by_id_roundtrip no_real_integer tom []). reflexivity.
Defined.

(** ** C2 *)

(** C2, as stated: for every id and schema, [update] returns nothing and
    writes the fields set on the schema into the row with that id, whatever
    SQLite makes of a text compared with an integer. *)
Lemma update_applies_set_fields_counterexample :
  ~ exists sqlite_real_integer : string -> option Z,
      forall (id_in : Z) (s : CatCreateSchema) (st : Session),
        update sqlite_real_integer id_in s st = inr (tt, map (spec_update_row id_in s) st).
Proof.
  intros [sri H].
  specialize (H 1 (mkCatCreateSchema (IdSet (Some 2)) "Tom" 4)
                [mkCat 1 "Tom" 3; mkCat 2 "Kit" 1]).
  vm_compute in H. discriminate H.
Qed.

(** ** C3 *)

(** C3, as stated: with no row of the id, [crupdate] leaves the store as
    [create] does. *)
Lemma crupdate_create_or_update_counterexample :
  ~ exists sqlite_real_integer : string -> option Z,
      forall (id_in : Z) (s : CatCreateSchema) (st : Session),
        id_taken st id_in = false ->
        store_effect (crupdate sqlite_real_integer id_in s st) = store_effect (create s st).
Proof.
  intros [sri H]. specialize (H (2 ^ 63) tom [] eq_refl).
  vm_compute in H. discriminate H.
Qed.

(** ** C4 *)

(** C4, as stated: with no row of the id, [delete] fails with the
    [session.delete(None)] error. *)
Lemma delete_then_get_by_id_counterexample :
  ~ exists sqlite_real_integer : string -> option Z,
      forall (id_in : Z) (st : Session),
        id_taken st id_in = false -> delete sqlite_real_integer id_in st = inl UnmappedInstanceError.
Proof.
  intros [sri H]. specialize (H (2 ^ 63) [] eq_refl).
  vm_compute in H. discriminate H.
Qed.

(** ** C5 *)

(** C5, as stated: the [id] given in a create schema does not matter to
    [create]. *)
Lemma create_ignores_id_counterexample :
  ~ (forall (s : CatCreateSchema) (st : Session),
        create s st = create (mkCatCreateSchema IdUnset (c_name s) (c_age s)) st).
Proof.
  intro H. specialize (H (mkCatCreateSchema (IdSet (Some 42)) "Tom" 3) []).
  vm_compute in H. discriminate H.
Qed.

(** ** C6 *)

(** C6, as stated: no operation changes the id of a surviving row; for
    [update], the table's ids are the same after it. *)
Lemma id_immutable_counterexample :
  ~ exists sqlite_real_integer : string -> option Z,
      forall (id_in : Z) (s : CatCreateSchema) (st : Session) (u : unit) (st' : Session),
        ids_unique st = true -> update sqlite_real_integer id_in s st = inr (u, st') ->
        map id st' = map id st.
Proof.
  intros [sri H].
  assert (E : update sri 1 (mkCatCreateSchema (IdSet (Some 7)) "Tom" 3) [mkCat 1 "Tom" 3] =
              inr (tt, [mkCat 7 "Tom" 3])) by (vm_compute; reflexivity).
  specialize (H 1 (mkCatCreateSchema (IdSet (Some 7)) "Tom" 3) [mkCat 1 "Tom" 3]
                tt [mkCat 7 "Tom" 3] eq_refl E).
  discriminate H.
Qed.

Lemma ids_unique_preserved_witness :
  ids_unique [mkCat 1 "Tom" 3; mkCat 2 "Kit" 1] = true /\
  (forall s o st', create s [mkCat 1 "Tom" 3; mkCat 2 "Kit" 1] = inr (o, st') ->
     ids_unique st' = true /\
     exists r, id_taken [mkCat 1 "Tom" 3; mkCat 2 "Kit" 1] (id r) = false /\
               st' = insert_by_id r [mkCat 1 "Tom" 3; mkCat 2 "Kit" 1]).
Proof.
  split; [reflexivity|].
  apply (proj1 (ids_unique_preserved no_real_integer [mkCat 1 "Tom" 3; mkCat 2 "Kit" 1]
                  eq_refl)).
Defined.

(** ** C7 *)

(** C7, as stated: for names that are all fields, [find_all_by_filters]
    returns the rows whose fields equal the given values, compared as
    Python values. *)
Lemma find_all_by_filters_conjunctive_counterexample :
  ~ exists (sqlite_real_integer : string -> option Z)
           (inherited_attr : string -> option ClassAttr),
      forall (kwargs : list (string * pyval)) (st : Session),
        Forall (fun kv => In (fst kv) entity_fields) kwargs ->
        find_all_by_filters sqlite_real_integer inherited_attr kwargs st =
        inr (from_models (filter (fun r => forallb (field_matches r) kwargs) st), st).
Proof.
  intros [sri [inh H]].
  assert (Hf : Forall (fun kv => In (fst kv) entity_fields) [("id"%string, PStr "1")])
    by (repeat constructor; left; reflexivity).
  specialize (H [("id"%string, PStr "1")] [mkCat 1 "Tom" 3] Hf).
  vm_compute in H. discriminate H.
Qed.

(** ** C8 *)

(** C8, as stated: [build_filter_query] fails with [AttributeError] exactly
    when some requested name is not a field of the entity. *)
Lemma build_filter_query_error_counterexample :
  ~ exists inherited_attr : string -> option ClassAttr,
      forall kwargs : list (string * pyval),
        build_filter_query inherited_attr kwargs = inl AttributeError <->
        Exists (fun kv => ~ In (fst kv) entity_fields) kwargs.
Proof.
  intros [inh H]. destruct (H [("update"%string, PInt 1)]) as [_ H2].
  assert (Hx : Exists (fun kv => ~ In (fst kv) entity_fields) [("update"%string, PInt 1)]).
  { apply Exists_cons_hd. cbn. intros [E | [E | [E | []]]]; discriminate E. }
  specialize (H2 Hx). vm_compute in H2. discriminate H2.
Qed.

(** * Witnesses of the further properties *)

Lemma get_by_id_lookup_witness :
  ids_unique [mkCat 1 "Tom" 3; mkCat 2 "Kit" 1] = true /\
  get_by_id no_real_integer 2 [mkCat 1 "Tom" 3; mkCat 2 "Kit" 1] =
  inr (Some (mkCatSchema 2 "Kit" 1), [mkCat 1 "Tom" 3; mkCat 2 "Kit" 1]).
Proof.
  split; [reflexivity|].
  apply (proj1 (get_by_id_lookup no_real_integer [mkCat 1 "Tom" 3; mkCat 2 "Kit" 1] eq_refl)
           (mkCat 2 "Kit" 1)); [right; left; reflexivity | reflexivity].
Defined.

Lemma create_then_delete_witness :
  create tom [mkCat 1 "Kit" 1] =
  inr (Some (mkCatSchema 2 "Tom" 3), [mkCat 1 "Kit" 1; mkCat 2 "Tom" 3]) /\
  delete no_real_integer 2 [mkCat 1 "Kit" 1; mkCat 2 "Tom" 3] =
  inr (Some (mkCatSchema 2 "Tom" 3), [mkCat 1 "Kit" 1]).
Proof.
  split; [reflexivity|].
  apply (create_then_delete no_real_integer tom [mkCat 1 "Kit" 1] (mkCatSchema 2 "Tom" 3)
           [mkCat 1 "Kit" 1; mkCat 2 "Tom" 3]).
  reflexivity.
Defined.

Lemma update_then_get_by_id_witness :
  exists st', update no_real_integer 1 (mkCatCreateSchema IdUnset "Felix" 5)
                [mkCat 1 "Tom" 3; mkCat 2 "Kit" 1] = inr (tt, st') /\
              get_by_id no_real_integer 1 st' = inr (Some (mkCatSchema 1 "Felix" 5), st').
Proof.
  apply (update_then_get_by_id no_real_integer [mkCat 1 "Tom" 3; mkCat 2 "Kit" 1]
           (mkCat 1 "Tom" 3) (mkCatCreateSchema IdUnset "Felix" 5));
    [reflexivity | left; reflexivity | reflexivity | reflexivity | reflexivity].
Defined.

Lemma delete_twice_fails_witness :
  delete no_real_integer 1 [mkCat 1 "Tom" 3] = inr (Some (mkCatSchema 1 "Tom" 3), []) /\
  delete no_real_integer 1 [] = inl UnmappedInstanceError.
Proof.
  split; [reflexivity|].
  apply (delete_twice_fails no_real_integer 1 [mkCat 1 "Tom" 3] (Some (mkCatSchema 1 "Tom" 3))
           []).
  reflexivity.
Defined.

Lemma crupdate_missing_id_not_created_witness :
  crupdate no_real_integer 5 tom [] = inr (tt, [mkCat 1 "Tom" 3]) /\
  exists j, next_rowid [] = Some j /\
            [mkCat 1 "Tom" 3] = insert_by_id (mkCat j "Tom" 3) [] /\
            (j = 5 \/ get_by_id no_real_integer 5 [mkCat 1 "Tom" 3] =
                      inr (None, [mkCat 1 "Tom" 3])).
Proof.
  split; [reflexivity|].
  apply (crupdate_missing_id_not_created no_real_integer 5 tom [] tt [mkCat 1 "Tom" 3]);
    reflexivity.
Defined.

Lemma get_all_cats_page_witness :
  get_all_cats no_real_integer 1 1 [mkCat 1 "Tom" 3; mkCat 2 "Kit" 1; mkCat 3 "Max" 2] =
  inr (firstn 1 (skipn 1 (from_models [mkCat 1 "Tom" 3; mkCat 2 "Kit" 1; mkCat 3 "Max" 2])),
       [mkCat 1 "Tom" 3; mkCat 2 "Kit" 1; mkCat 3 "Max" 2]).
Proof.
  apply (get_all_cats_page no_real_integer 1 1
           [mkCat 1 "Tom" 3; mkCat 2 "Kit" 1; mkCat 3 "Max" 2]); lia.
Defined.

Lemma get_all_cats_pages_concat_witness :
  exists p1 p2,
    get_all_cats no_real_integer 0 1 [mkCat 1 "Tom" 3; mkCat 2 "Kit" 1] =
      inr (p1, [mkCat 1 "Tom" 3; mkCat 2 "Kit" 1]) /\
    get_all_cats no_real_integer (0 + 1) 1 [mkCat 1 "Tom" 3; mkCat 2 "Kit" 1] =
      inr (p2, [mkCat 1 "Tom" 3; mkCat 2 "Kit" 1]) /\
    get_all_cats no_real_integer 0 (1 + 1) [mkCat 1 "Tom" 3; mkCat 2 "Kit" 1] =
      inr (p1 ++ p2, [mkCat 1 "Tom" 3; mkCat 2 "Kit" 1]).
Proof.
  apply (get_all_cats_pages_concat no_real_integer 0 1 1 [mkCat 1 "Tom" 3; mkCat 2 "Kit" 1]);
    lia.
Defined.

Lemma create_cat_errors_witness :
  create_cat (mkCatCreateSchema (IdSet (Some 1)) "Kit" 1) [mkCat 1 "Tom" 3] =
    inl (Unhandled IntegrityError) /\
  ((Unhandled IntegrityError = Unhandled OverflowError /\
    schema_in_int64 (mkCatCreateSchema (IdSet (Some 1)) "Kit" 1) = false) \/
   (Unhandled IntegrityError = Unhandled IntegrityError /\
    schema_in_int64 (mkCatCreateSchema (IdSet (Some 1)) "Kit" 1) = true /\
    exists i, id_value (c_id (mkCatCreateSchema (IdSet (Some 1)) "Kit" 1)) = Some i /\
              id_taken [mkCat 1 "Tom" 3] i = true) \/
   (Unhandled IntegrityError = Unhandled OperationalError /\
    schema_in_int64 (mkCatCreateSchema (IdSet (Some 1)) "Kit" 1) = true /\
    id_value (c_id (mkCatCreateSchema (IdSet (Some 1)) "Kit" 1)) = None /\
    next_rowid [mkCat 1 "Tom" 3] = None)).
Proof.
  split; [reflexivity|].
  apply (create_cat_errors (mkCatCreateSchema (IdSet (Some 1)) "Kit" 1) [mkCat 1 "Tom" 3]).
  reflexivity.
Defined.
